(** * Smart bracket handling for CodeMirror (autoCloseBrackets.js)

    A shallow embedding of the [smartBrackets] addon: the delimiter table
    and its three classification functions, the keypress handler (pair
    insertion, selection wrapping, typing through a closer) and the keydown
    handler (Enter between a pair, Backspace between a pair), run against a
    model of the editor they drive. *)

From Stdlib Require Import ZArith NArith List Bool Lia String Ascii.
Import ListNotations.
Local Open Scope Z_scope.

(** ** JavaScript strings

    A string is a sequence of UTF-16 code units.  [undefined] is the [None]
    of an [option]. *)
Module JS.

Abbreviation jsstring := (list N).

Definition LF : N := 10.
Definition CR : N := 13.
Definition SPACE : N := 32.

(** A literal, written with Rocq's 8-bit strings. *)
Definition lit (s : string) : jsstring :=
  map N_of_ascii (list_ascii_of_string s).

(** [String.fromCharCode(code)]: one code unit, the code modulo 2^16. *)
Definition fromCharCode (code : N) : jsstring := [(code mod 65536)%N].

Definition length (s : jsstring) : Z := Z.of_nat (List.length s).

(** [s.charAt(i)]: the empty string when [i] is out of range. *)
Definition charAt (s : jsstring) (i : Z) : jsstring :=
  if i <? 0 then []
  else match nth_error s (Z.to_nat i) with
       | Some u => [u]
       | None => []
       end.

(** [s.slice(start, end)], [end] possibly omitted. *)
Definition slice (s : jsstring) (start : Z) (end_ : option Z) : jsstring :=
  let len := length s in
  let from := if start <? 0 then Z.max (len + start) 0 else Z.min start len in
  let to :=
    match end_ with
    | None => len
    | Some e => if e <? 0 then Z.max (len + e) 0 else Z.min e len
    end in
  let span := Z.max (to - from) 0 in
  firstn (Z.to_nat span) (skipn (Z.to_nat from) s).

(** [a === b] on strings. *)
Fixpoint eqb (a b : jsstring) : bool :=
  match a, b with
  | [], [] => true
  | x :: a', y :: b' => (x =? y)%N && eqb a' b'
  | _, _ => false
  end.

(** [a === v] where [v] is a string or [undefined]. *)
Definition strictEq (a : jsstring) (v : option jsstring) : bool :=
  match v with
  | Some b => eqb a b
  | None => false
  end.

(** [xs.includes(s)] on an array of strings. *)
Definition includes (xs : list jsstring) (s : jsstring) : bool :=
  existsb (eqb s) xs.

(** [s.repeat(n)]. *)
Definition repeat (s : jsstring) (n : nat) : jsstring :=
  List.concat (List.repeat s n).

(** [xs.join(sep)]. *)
Fixpoint join (sep : jsstring) (xs : list jsstring) : jsstring :=
  match xs with
  | [] => []
  | [x] => x
  | x :: rest => x ++ sep ++ join sep rest
  end.

(** The string a value turns into under [+]. *)
Definition toString (v : option jsstring) : jsstring :=
  match v with
  | Some s => s
  | None => lit "undefined"
  end.

(** The class [\s] of regular expressions: WhiteSpace and LineTerminator. *)
Definition isWhiteSpace (u : N) : bool :=
  ((9 <=? u) && (u <=? 13) || (u =? 32) || (u =? 160) || (u =? 5760)
   || (8192 <=? u) && (u <=? 8202) || (u =? 8232) || (u =? 8233)
   || (u =? 8239) || (u =? 8287) || (u =? 12288) || (u =? 65279))%N.

(** [s.match(/^\s*/)[0]]: the longest prefix of white space; the pattern
    matches every string, so the result is never [null]. *)
Fixpoint matchLeadingWhitespace (s : jsstring) : jsstring :=
  match s with
  | [] => []
  | u :: rest => if isWhiteSpace u then u :: matchLeadingWhitespace rest else []
  end.

(** [s.split(/\r\n?|\n/)]. *)
Fixpoint splitLines (s : jsstring) : list jsstring :=
  match s with
  | [] => [[]]
  | u :: rest =>
      if (u =? LF)%N then [] :: splitLines rest
      else if (u =? CR)%N then
        [] :: match rest with
              | u' :: rest' =>
                  if (u' =? LF)%N then splitLines rest' else splitLines rest
              | [] => splitLines rest
              end
      else match splitLines rest with
           | l :: ls => (u :: l) :: ls
           | [] => [[u]]
           end
  end.

End JS.

Import JS.

(** ** The editor the addon drives *)

Module Pos.
Record t := mk { line : Z; ch : Z }.

(** [cmp(a, b)]: negative, zero or positive. *)
Definition cmp (a b : t) : Z :=
  if line a =? line b then ch a - ch b else line a - line b.

Definition eqb (a b : t) : bool := (line a =? line b) && (ch a =? ch b).
End Pos.

Record Range := mkRange { anchor : Pos.t; head : Pos.t }.

(** What the addon asks of the editor and of the event. *)
Inductive command :=
| PreventDefault
| ReplaceRange (code : jsstring) (from to : Pos.t)
| SetCursor (pos : Pos.t).

(** The editor, the event being handled and two logs.  The document is its
    array of lines.  The selection is the array of ranges that
    [listSelections] returns, split around the primary range.  [issued]
    lists, oldest first, the commands the addon has sent; [lookups] lists the
    arguments [getCloseBracket] has been called with. *)
Record world := mkWorld {
  doc : list jsstring;
  selBefore : list Range;
  primary : Range;
  selAfter : list Range;
  indentUnit : nat;
  defaultPrevented : bool;
  issued : list command;
  lookups : list jsstring
}.

Definition ranges (w : world) : list Range :=
  selBefore w ++ primary w :: selAfter w.

(** The position of the cursor: the head of the primary range. *)
Definition cursor (w : world) : Pos.t := head (primary w).

Record change := mkChange {
  from : Pos.t;
  to : Pos.t;
  text : list jsstring
}.

(** Modelled from the spec: the host editor of section 6 (the [cm] object of
    lib/codemirror.js, which is not among the sources).  The section names
    the capabilities: query the cursor, the selections and a line, read the
    indent width, cancel the default, replace a range by a string, set the
    cursor.  What section 6 leaves open is filled in from the behaviour of
    CodeMirror 5: positions given to the editor are clipped into the
    document; a replaced range is given in either order; the inserted string
    is split into lines; every selection end in or at the edge of a replaced
    range moves to the end of the inserted text, the ends behind it shift;
    setting the cursor leaves one empty range.  Merging of ranges that come
    to overlap after a change is not modelled. *)
Module Host.

Definition lineText (d : list jsstring) (n : Z) : jsstring :=
  nth (Z.to_nat n) d [].

Definition clipToLen (pos : Pos.t) (linelen : Z) : Pos.t :=
  if Pos.ch pos >? linelen then Pos.mk (Pos.line pos) linelen
  else if Pos.ch pos <? 0 then Pos.mk (Pos.line pos) 0
  else pos.

Definition clipPos (d : list jsstring) (pos : Pos.t) : Pos.t :=
  if Pos.line pos <? 0 then Pos.mk 0 0
  else
    let last := Z.of_nat (List.length d) - 1 in
    if Pos.line pos >? last then Pos.mk last (JS.length (lineText d last))
    else clipToLen pos (JS.length (lineText d (Pos.line pos))).

(** The line numbers [first], ..., [first + count - 1]. *)
Definition lineNumbers (first count : Z) : list Z :=
  map (fun k => first + Z.of_nat k) (seq 0 (Z.to_nat count)).

Definition getBetween (d : list jsstring) (start end_ : Pos.t)
  : list jsstring :=
  map (fun n =>
         let text := lineText d n in
         let text :=
           if n =? Pos.line end_ then slice text 0 (Some (Pos.ch end_))
           else text in
         if n =? Pos.line start then slice text (Pos.ch start) None
         else text)
      (lineNumbers (Pos.line start) (Pos.line end_ + 1 - Pos.line start)).

Definition changeEnd (c : change) : Pos.t :=
  let n := Z.of_nat (List.length (text c)) in
  Pos.mk (Pos.line (from c) + n - 1)
         (JS.length (last (text c) [])
          + (if n =? 1 then Pos.ch (from c) else 0)).

Definition adjustForChange (pos : Pos.t) (c : change) : Pos.t :=
  if Pos.cmp pos (from c) <? 0 then pos
  else if Pos.cmp pos (to c) <=? 0 then changeEnd c
  else
    let line :=
      Pos.line pos + Z.of_nat (List.length (text c))
      - (Pos.line (to c) - Pos.line (from c)) - 1 in
    let ch :=
      if Pos.line pos =? Pos.line (to c)
      then Pos.ch pos + (Pos.ch (changeEnd c) - Pos.ch (to c))
      else Pos.ch pos in
    Pos.mk line ch.

Definition adjustRange (c : change) (r : Range) : Range :=
  mkRange (adjustForChange (anchor r) c) (adjustForChange (head r) c).

Definition prependFirst (pre : jsstring) (ls : list jsstring)
  : list jsstring :=
  match ls with
  | [] => [pre]
  | l :: rest => (pre ++ l) :: rest
  end.

Fixpoint appendLast (ls : list jsstring) (post : jsstring)
  : list jsstring :=
  match ls with
  | [] => [post]
  | [l] => [l ++ post]
  | l :: rest => l :: appendLast rest post
  end.

(** The lines of the document after a change: the text before [from] on
    its line, the inserted lines, the text behind [to] on its line. *)
Definition updateDoc (d : list jsstring) (c : change) : list jsstring :=
  let pre := slice (lineText d (Pos.line (from c))) 0 (Some (Pos.ch (from c))) in
  let post := slice (lineText d (Pos.line (to c))) (Pos.ch (to c)) None in
  firstn (Z.to_nat (Pos.line (from c))) d
  ++ prependFirst pre (appendLast (text c) post)
  ++ skipn (Z.to_nat (Pos.line (to c) + 1)) d.

Definition makeChange (c : change) (w : world) : world :=
  mkWorld (updateDoc (doc w) c)
          (map (adjustRange c) (selBefore w))
          (adjustRange c (primary w))
          (map (adjustRange c) (selAfter w))
          (indentUnit w) (defaultPrevented w) (issued w) (lookups w).

(** Modelled from the spec: the editor's "replace an arbitrary text range
    with a given string" (section 6), which is not among the sources. *)
Definition replaceRange (code : jsstring) (from to : Pos.t) (w : world)
  : world :=
  let from := clipPos (doc w) from in
  let to := clipPos (doc w) to in
  let c :=
    if Pos.cmp to from <? 0 then mkChange to from (splitLines code)
    else mkChange from to (splitLines code) in
  makeChange c w.

(** Modelled from the spec: the editor's "set the cursor to an arbitrary
    position" (section 6), which is not among the sources. *)
Definition setCursor (pos : Pos.t) (w : world) : world :=
  let p := clipPos (doc w) pos in
  mkWorld (doc w) [] (mkRange p p) [] (indentUnit w) (defaultPrevented w)
          (issued w) (lookups w).

(** Modelled from the spec: the editor's "query the text of an arbitrary
    line by index" (section 6), which is not among the sources; [undefined]
    when there is no such line. *)
Definition getLine (n : Z) (w : world) : option jsstring :=
  if (0 <=? n) && (n <? Z.of_nat (List.length (doc w)))
  then Some (lineText (doc w) n)
  else None.

(** Modelled from the spec: the editor's query of the text of a range
    (section 6, "active selection range(s)"), which is not among the
    sources; the ends are taken in the order given. *)
Definition getRange (from to : Pos.t) (w : world) : jsstring :=
  join [LF] (getBetween (doc w) (clipPos (doc w) from) (clipPos (doc w) to)).

Definition rangeEmpty (r : Range) : bool := Pos.eqb (head r) (anchor r).

(** Modelled from the spec: the editor's query "whether a non-empty
    selection is active" (sections 4.4 and 6), which is not among the
    sources. *)
Definition somethingSelected (w : world) : bool :=
  existsb (fun r => negb (rangeEmpty r)) (ranges w).

End Host.

(** ** Running the addon: state and exceptions

    A computation reads and changes the [world]; [None] is an uncaught
    [TypeError]. *)
Definition M (A : Type) : Type := world -> option (A * world).

Definition ret {A} (a : A) : M A := fun w => Some (a, w).

Definition bind {A B} (m : M A) (k : A -> M B) : M B :=
  fun w => match m w with
           | Some (a, w') => k a w'
           | None => None
           end.

Definition throw {A} : M A := fun _ => None.

Declare Scope js_scope.
Delimit Scope js_scope with js.
Notation "x <- m ;; k" := (bind m (fun x => k))
  (at level 100, m at next level, right associativity) : js_scope.
Notation "m ;; k" := (bind m (fun _ => k))
  (at level 100, right associativity) : js_scope.
Local Open Scope js_scope.

(** [recv.f(...)]: a [TypeError] when the receiver is [undefined]. *)
Definition method {A B} (recv : option A) (f : A -> B) : M B :=
  match recv with
  | Some a => ret (f a)
  | None => throw
  end.

(** [xs.forEach(f)]. *)
Fixpoint forEach {A} (xs : list A) (f : A -> M unit) : M unit :=
  match xs with
  | [] => ret tt
  | x :: rest => f x ;; forEach rest f
  end.

Definition log (c : command) (w : world) : world :=
  mkWorld (doc w) (selBefore w) (primary w) (selAfter w) (indentUnit w)
          (defaultPrevented w) (issued w ++ [c]) (lookups w).

(** The calls on [cm] and on [event]. *)
Module cm.
Definition getCursor : M Pos.t := fun w => Some (cursor w, w).
Definition getLine (n : Z) : M (option jsstring) :=
  fun w => Some (Host.getLine n w, w).
Definition somethingSelected : M bool :=
  fun w => Some (Host.somethingSelected w, w).
Definition listSelections : M (list Range) := fun w => Some (ranges w, w).
Definition getRange (from to : Pos.t) : M jsstring :=
  fun w => Some (Host.getRange from to w, w).
(** [cm.replaceRange(code, from, to)]; an omitted [to] is [from]. *)
Definition replaceRange (code : jsstring) (from : Pos.t) (to : option Pos.t)
  : M unit :=
  fun w =>
    let to := match to with Some p => p | None => from end in
    Some (tt, Host.replaceRange code from to (log (ReplaceRange code from to) w)).
Definition setCursor (pos : Pos.t) : M unit :=
  fun w => Some (tt, Host.setCursor pos (log (SetCursor pos) w)).
(** [cm.getOption("indentUnit")]. *)
Definition getOption_indentUnit : M nat := fun w => Some (indentUnit w, w).
End cm.

Record Event := mkEvent {
  charCode : N;
  key : jsstring
}.

Definition preventDefault : M unit :=
  fun w =>
    let w := log PreventDefault w in
    Some (tt, mkWorld (doc w) (selBefore w) (primary w) (selAfter w)
                      (indentUnit w) true (issued w) (lookups w)).

(** ** The addon *)

(** The double quote. *)
Definition quote : jsstring := [34%N].

Definition brackets : list (jsstring * jsstring) :=
  [ (lit "(", lit ")");
    (lit "[", lit "]");
    (lit "{", lit "}");
    (lit "'", lit "'");
    (quote, quote);
    (lit "`", lit "`") ].

Definition isOpenBracket (char : jsstring) : bool :=
  includes (map fst brackets) char.

Definition isCloseBracket (char : jsstring) : bool :=
  includes (map snd brackets) char.

(** [brackets[open]] for a string of at most one code unit, which is all the
    handlers look up (a result of [String.fromCharCode] or of [charAt]):
    [undefined] when [open] is not a key.  Longer strings are outside this
    definition: a plain object also answers to the names it inherits
    ([constructor], [toString], ...), with values that are no strings. *)
Definition getCloseBracket (open : jsstring) : option jsstring :=
  option_map snd (find (fun kv => eqb (fst kv) open) brackets).

(** A call of [getCloseBracket], entered in the [lookups] log. *)
Definition call_getCloseBracket (open : jsstring) : M (option jsstring) :=
  fun w =>
    Some (getCloseBracket open,
          mkWorld (doc w) (selBefore w) (primary w) (selAfter w) (indentUnit w)
                  (defaultPrevented w) (issued w) (lookups w ++ [open])).

Definition handleKeypress (event : Event) : M unit :=
  let char := fromCharCode (charCode event) in
  let isLeftBracket := isOpenBracket char in
  let isRightBracket := isCloseBracket char in
  if negb isLeftBracket && negb isRightBracket then ret tt
  else
    pos <- cm.getCursor ;;
    line <- cm.getLine (Pos.line pos) ;;
    nextChar <- method line (fun l => charAt l (Pos.ch pos)) ;;
    close <- call_getCloseBracket char ;;
    let autocomplete : M unit :=
      preventDefault ;;
      selected <- cm.somethingSelected ;;
      if selected then
        selections <- cm.listSelections ;;
        forEach selections (fun selection =>
          text <- cm.getRange (anchor selection) (head selection) ;;
          cm.replaceRange (char ++ text ++ toString close)
                          (anchor selection) (Some (head selection)))
      else
        cm.replaceRange (char ++ toString close) pos None ;;
        cm.setCursor (Pos.mk (Pos.line pos) (Pos.ch pos + 1)) in
    let handleRightBracket : M unit :=
      preventDefault ;;
      cm.setCursor (Pos.mk (Pos.line pos) (Pos.ch pos + 1)) in
    let handlePunctuation : M unit :=
      if eqb char nextChar then handleRightBracket else autocomplete in
    if Bool.eqb isLeftBracket isRightBracket then handlePunctuation
    else if isLeftBracket then autocomplete
    else if isRightBracket then
      (if eqb char nextChar then handleRightBracket else ret tt)
    else ret tt.

Definition handleEnter (event : Event) : M unit :=
  pos <- cm.getCursor ;;
  line <- cm.getLine (Pos.line pos) ;;
  prevChar <- method line (fun l => charAt l (Pos.ch pos - 1)) ;;
  nextChar <- method line (fun l => charAt l (Pos.ch pos)) ;;
  if isOpenBracket prevChar && isCloseBracket nextChar then
    preventDefault ;;
    indentation <- method line matchLeadingWhitespace ;;
    tabSize <- cm.getOption_indentUnit ;;
    let extraIndent := JS.repeat (lit " ") tabSize in
    let newLine := [LF] ++ indentation ++ extraIndent ++ [LF] ++ indentation in
    cm.replaceRange newLine pos None ;;
    cm.setCursor (Pos.mk (Pos.line pos + 1)
                         (JS.length indentation + Z.of_nat tabSize))
  else ret tt.

Definition handleBackspace (event : Event) : M unit :=
  selected <- cm.somethingSelected ;;
  if selected then ret tt
  else
    pos <- cm.getCursor ;;
    line <- cm.getLine (Pos.line pos) ;;
    prevChar <- method line (fun l => charAt l (Pos.ch pos - 1)) ;;
    nextChar <- method line (fun l => charAt l (Pos.ch pos)) ;;
    (* [&&] evaluates its right operand only when the left one holds *)
    matches <-
      (if isOpenBracket prevChar then
         close <- call_getCloseBracket prevChar ;; ret (strictEq nextChar close)
       else ret false) ;;
    if matches then
      preventDefault ;;
      cm.replaceRange []
        (Pos.mk (Pos.line pos) (Pos.ch pos - 1))
        (Some (Pos.mk (Pos.line pos) (Pos.ch pos + 1)))
    else ret tt.

Definition handleKeydown (event : Event) : M unit :=
  if eqb (key event) (lit "Enter") then handleEnter event
  else if eqb (key event) (lit "Backspace") then handleBackspace event
  else ret tt.

(** The world a handler leaves, when it returns. *)
Definition run (m : M unit) (w : world) : option world :=
  option_map snd (m w).

(** ** The vocabulary of the statements *)

(** A string without line breaks, as every line of a document is. *)
Definition noEOL (s : jsstring) : Prop :=
  Forall (fun u => u <> LF /\ u <> CR) s.

(** The document with line [l] replaced. *)
Definition setLine (d : list jsstring) (l : Z) (L' : jsstring)
  : list jsstring :=
  firstn (Z.to_nat l) d ++ L' :: skipn (Z.to_nat (l + 1)) d.

(** A handler that leaves the editor and the event as they were; only the
    log of table lookups may have grown. *)
Definition untouched (w w' : world) : Prop :=
  doc w' = doc w /\ selBefore w' = selBefore w /\ primary w' = primary w
  /\ selAfter w' = selAfter w /\ indentUnit w' = indentUnit w
  /\ defaultPrevented w' = defaultPrevented w /\ issued w' = issued w.

(** A world with one cursor and nothing selected. *)
Definition cursorAt (p : Pos.t) : Range := mkRange p p.

Definition isReplaceRange (c : command) : bool :=
  match c with
  | ReplaceRange _ _ _ => true
  | _ => false
  end.

(** The number of [replaceRange] calls among some commands. *)
Definition edits (cs : list command) : nat :=
  List.length (filter isReplaceRange cs).

(** The lines that hold the rows of a text when [P] stands before the first
    row on its line and [Q] behind the last row on its line. *)
Definition embed (P : jsstring) (rows : list jsstring) (Q : jsstring)
  : list jsstring :=
  Host.prependFirst P (Host.appendLast rows Q).

(** Where rows end that start behind [P] on line [first]. *)
Definition endOfRows (first : Z) (P : jsstring) (rows : list jsstring)
  : Pos.t :=
  Pos.mk (first + Z.of_nat (List.length rows) - 1)
         (match rows with
          | [r] => JS.length P + JS.length r
          | _ => JS.length (last rows [])
          end).

(** Worlds and events for examples: one cursor at line [l], column [c], in
    document [d] with indent width [width]; a typed character; a named
    key; a range from [(l, c)] to [(l', c')]. *)
Definition editing (d : list jsstring) (l c : Z) (width : nat) : world :=
  mkWorld d [] (cursorAt (Pos.mk l c)) [] width false [] [].

Definition keypress (code : N) : Event := mkEvent code [].

Definition keydown (name : string) : Event := mkEvent 0 (lit name).

Definition span (l c l' c' : Z) : Range :=
  mkRange (Pos.mk l c) (Pos.mk l' c').

(** ** The rest of the addon *)

(** The inner function [autocomplete] of [handleKeypress], with the
    variables it closes over as arguments. *)
Definition autocomplete (char : jsstring) (close : option jsstring)
  (pos : Pos.t) : M unit :=
  preventDefault ;;
  selected <- cm.somethingSelected ;;
  if selected then
    selections <- cm.listSelections ;;
    forEach selections (fun selection =>
      text <- cm.getRange (anchor selection) (head selection) ;;
      cm.replaceRange (char ++ text ++ toString close)
                      (anchor selection) (Some (head selection)))
  else
    cm.replaceRange (char ++ toString close) pos None ;;
    cm.setCursor (Pos.mk (Pos.line pos) (Pos.ch pos + 1)).

(** The world in which the next keystroke is handled: its event is a new
    object, whose default nobody has prevented yet. *)
Definition nextEvent (w : world) : world :=
  mkWorld (doc w) (selBefore w) (primary w) (selAfter w) (indentUnit w)
          false (issued w) (lookups w).

(** The functions that listen to the editor's events: the two handlers of
    the addon, and whatever else is registered. *)
Inductive listener :=
| HandleKeypress
| HandleKeydown
| Foreign (id : nat).

Definition listener_eqb (f g : listener) : bool :=
  match f, g with
  | HandleKeypress, HandleKeypress => true
  | HandleKeydown, HandleKeydown => true
  | Foreign i, Foreign j => Nat.eqb i j
  | _, _ => false
  end.

(** Modelled from the spec: the event subscription of the host (section 1,
    "event subscription plumbing"; lib/codemirror.js is not among the
    sources), after CodeMirror 5: [cm.on(type, f)] puts [f] behind the
    listeners of [type], [cm.off(type, f)] takes the first registration of
    [f] for [type] away, if there is one.  The registrations of all types
    are kept in one list, oldest first. *)
Module Emitter.

Definition t := list (jsstring * listener).

Definition same (type : jsstring) (f : listener) (e : jsstring * listener)
  : bool :=
  eqb (fst e) type && listener_eqb (snd e) f.

Definition on (type : jsstring) (f : listener) (hs : t) : t :=
  hs ++ [(type, f)].

Fixpoint off (type : jsstring) (f : listener) (hs : t) : t :=
  match hs with
  | [] => []
  | e :: rest => if same type f e then rest else e :: off type f rest
  end.

(** How often [f] is registered for [type]. *)
Definition registered (type : jsstring) (f : listener) (hs : t) : nat :=
  List.length (filter (same type f) hs).

End Emitter.

(** The handler of the option [smartBrackets], the third argument of
    [CodeMirror.defineOption]; [val] is the option's value as a condition
    sees it. *)
Definition smartBrackets (val : bool) (hs : Emitter.t) : Emitter.t :=
  if negb val then hs
  else
    let hs := Emitter.off (lit "keypress") HandleKeypress hs in
    let hs := Emitter.off (lit "keydown") HandleKeydown hs in
    let hs := Emitter.on (lit "keypress") HandleKeypress hs in
    Emitter.on (lit "keydown") HandleKeydown hs.

(** A range that lies within one line of the document [d], its anchor not
    behind its head. *)
Definition inOneLine (d : list jsstring) (r : Range) : Prop :=
  Pos.line (head r) = Pos.line (anchor r)
  /\ 0 <= Pos.line (anchor r) < Z.of_nat (List.length d)
  /\ 0 <= Pos.ch (anchor r) <= Pos.ch (head r)
  /\ Pos.ch (head r) <= JS.length (Host.lineText d (Pos.line (anchor r))).

(** The line [L] with the stretch that [r] covers put between [o] and
    [x]. *)
Definition wrapLine (o x L : jsstring) (r : Range) : jsstring :=
  firstn (Z.to_nat (Pos.ch (anchor r))) L
  ++ o ++ slice L (Pos.ch (anchor r)) (Some (Pos.ch (head r))) ++ x
  ++ skipn (Z.to_nat (Pos.ch (head r))) L.

(** The line a range starts on. *)
Definition lineOf (r : Range) : Z := Pos.line (anchor r).

(** Whether the dispatch at the end of [handleKeypress] reaches
    [autocomplete] for the typed [char] before [nextChar]: for an opener,
    unless it is a closer as well and stands before itself. *)
Definition insertsPair (char nextChar : jsstring) : bool :=
  isOpenBracket char && negb (isCloseBracket char && eqb char nextChar).

(** A command for the editor, as opposed to [event.preventDefault()]. *)
Definition toEditor (c : command) : bool :=
  match c with
  | PreventDefault => false
  | ReplaceRange _ _ _ | SetCursor _ => true
  end.

(** The registrations of everything but the two handlers of the addon, in
    the order they were made. *)
Definition others (hs : Emitter.t) : Emitter.t :=
  filter (fun e =>
            negb (Emitter.same (lit "keypress") HandleKeypress e)
            && negb (Emitter.same (lit "keydown") HandleKeydown e))
         hs.

(** The proofs unfold these by name only. *)
Arguments Host.somethingSelected : simpl never.
Arguments Host.getLine : simpl never.
Arguments Host.getRange : simpl never.
Arguments Host.replaceRange : simpl never.
Arguments Host.clipPos : simpl never.
Arguments Host.updateDoc : simpl never.
Arguments Host.adjustForChange : simpl never.
Arguments Host.adjustRange : simpl never.
Arguments isOpenBracket : simpl never.
Arguments isCloseBracket : simpl never.
Arguments getCloseBracket : simpl never.
Arguments charAt : simpl never.
Arguments fromCharCode : simpl never.
Arguments cursor : simpl never.
Arguments JS.repeat : simpl never.
Arguments lit : simpl never.

(** Unfolds the monad and the calls on the editor in a handler. *)
Ltac step :=
  unfold bind, ret, method, throw, cm.getCursor, cm.getLine,
    cm.somethingSelected, cm.listSelections, cm.getRange, cm.replaceRange,
    cm.setCursor, cm.getOption_indentUnit, preventDefault,
    call_getCloseBracket, log; cbn.

(** ** Strings and the delimiter table *)

Lemma eqb_eq (a b : jsstring) : eqb a b = true <-> a = b.
Proof.
  revert b; induction a as [|x a IH]; intros [|y b]; simpl;
    try (split; congruence).
  rewrite andb_true_iff, N.eqb_eq, IH. split.
  - intros [-> ->]; reflexivity.
  - intros [= -> ->]; auto.
Qed.

Lemma eqb_refl (a : jsstring) : eqb a a = true.
Proof. apply eqb_eq; reflexivity. Qed.

Lemma eqb_neq (a b : jsstring) : eqb a b = false <-> a <> b.
Proof.
  rewrite <- eqb_eq. destruct (eqb a b); split; congruence.
Qed.

Lemma includes_In (xs : list jsstring) (s : jsstring) :
  includes xs s = true <-> In s xs.
Proof.
  unfold includes. rewrite existsb_exists. split.
  - intros [x [Hin Hx]]. apply eqb_eq in Hx. subst; assumption.
  - intros Hin. exists s. split; [assumption | apply eqb_refl].
Qed.

Lemma isOpenBracket_cases (c : jsstring) :
  isOpenBracket c = true ->
  c = lit "(" \/ c = lit "[" \/ c = lit "{" \/ c = lit "'" \/ c = quote
  \/ c = lit "`".
Proof.
  unfold isOpenBracket. rewrite includes_In. simpl.
  intuition (subst; auto).
Qed.

Lemma isCloseBracket_cases (c : jsstring) :
  isCloseBracket c = true ->
  c = lit ")" \/ c = lit "]" \/ c = lit "}" \/ c = lit "'" \/ c = quote
  \/ c = lit "`".
Proof.
  unfold isCloseBracket. rewrite includes_In. simpl.
  intuition (subst; auto).
Qed.

(** Every opener has a closer in the table, one code unit that is no line
    break, and so has the opener. *)
Lemma getCloseBracket_opener (c : jsstring) :
  isOpenBracket c = true ->
  exists o x, c = [o] /\ getCloseBracket c = Some [x]
              /\ isCloseBracket [x] = true /\ noEOL [o] /\ noEOL [x].
Proof.
  intros H. apply isOpenBracket_cases in H.
  assert (E : forall u : N, u <> LF -> u <> CR -> noEOL [u])
    by (intros; repeat constructor; assumption).
  destruct H as [-> | [-> | [-> | [-> | [-> | ->]]]]];
    eexists; eexists; (split; [reflexivity |]);
    (split; [reflexivity |]); (split; [reflexivity |]);
    split; apply E; discriminate.
Qed.

Lemma isCloseBracket_unit (c : jsstring) :
  isCloseBracket c = true -> exists x, c = [x].
Proof.
  intros H. apply isCloseBracket_cases in H.
  destruct H as [-> | [-> | [-> | [-> | [-> | ->]]]]]; eexists; reflexivity.
Qed.

(** ** Reading the line under the cursor *)

Lemma charAt_unit (L : jsstring) (i : Z) (u : N) :
  charAt L i = [u] ->
  0 <= i < JS.length L /\ nth_error L (Z.to_nat i) = Some u.
Proof.
  unfold charAt, JS.length. destruct (Z.ltb_spec i 0); [discriminate |].
  destruct (nth_error L (Z.to_nat i)) as [v|] eqn:E; [| discriminate].
  intros [= ->]. split; [| reflexivity].
  assert (Z.to_nat i < List.length L)%nat
    by (apply nth_error_Some; congruence).
  lia.
Qed.

Lemma charAt_negative (L : jsstring) (i : Z) : i < 0 -> charAt L i = [].
Proof.
  intros H. unfold charAt. destruct (Z.ltb_spec i 0); [reflexivity | lia].
Qed.

Lemma getLine_Some (n : Z) (w : world) (L : jsstring) :
  Host.getLine n w = Some L ->
  0 <= n < Z.of_nat (List.length (doc w)) /\ Host.lineText (doc w) n = L.
Proof.
  unfold Host.getLine.
  destruct (Z.leb_spec 0 n); simpl; [| discriminate].
  destruct (Z.ltb_spec n (Z.of_nat (List.length (doc w)))); [| discriminate].
  intros [= <-]. split; [lia | reflexivity].
Qed.

Lemma clipPos_inside (d : list jsstring) (l c : Z) :
  0 <= l < Z.of_nat (List.length d) ->
  0 <= c <= JS.length (Host.lineText d l) ->
  Host.clipPos d (Pos.mk l c) = Pos.mk l c.
Proof.
  intros Hl Hc. unfold Host.clipPos, Host.clipToLen. simpl.
  destruct (Z.ltb_spec l 0); [lia |].
  destruct (Z.gtb_spec l (Z.of_nat (List.length d) - 1)); [lia |].
  destruct (Z.gtb_spec c (JS.length (Host.lineText d l))); [lia |].
  destruct (Z.ltb_spec c 0); [lia | reflexivity].
Qed.

(** ** Backspace *)

(** C10: with the cursor at column 0 the character before it reads as the
    empty string, which is no opener: the handler returns having sent
    nothing, the default is not prevented, and no line is joined. *)
Theorem backspace_at_column_0 (event : Event) (w : world) (L : jsstring) :
  Pos.ch (cursor w) = 0 ->
  Host.getLine (Pos.line (cursor w)) w = Some L ->
  charAt L (Pos.ch (cursor w) - 1) = []
  /\ isOpenBracket [] = false
  /\ handleBackspace event w = Some (tt, w).
Proof.
  intros Hch HL.
  assert (Hprev : charAt L (Pos.ch (cursor w) - 1) = [])
    by (apply charAt_negative; lia).
  split; [assumption |]. split; [reflexivity |].
  unfold handleBackspace. step.
  destruct (Host.somethingSelected w); [reflexivity |].
  rewrite HL. simpl. rewrite Hprev. reflexivity.
Qed.

(** ** The editor's changes on one line *)

Lemma slice_prefix (L : jsstring) (a : Z) :
  0 <= a <= JS.length L -> slice L 0 (Some a) = firstn (Z.to_nat a) L.
Proof.
  intros H. unfold slice, JS.length in *. simpl.
  destruct (Z.ltb_spec a 0); [lia |].
  rewrite Z.min_l, Z.min_l, Z.sub_0_r, Z.max_l by lia. reflexivity.
Qed.

Lemma slice_suffix (L : jsstring) (a : Z) :
  0 <= a <= JS.length L -> slice L a None = skipn (Z.to_nat a) L.
Proof.
  intros H. unfold slice, JS.length in *.
  destruct (Z.ltb_spec a 0); [lia |].
  rewrite Z.min_l, Z.max_l by lia.
  apply firstn_all2. rewrite length_skipn. lia.
Qed.

Lemma splitLines_noEOL (s : jsstring) : noEOL s -> splitLines s = [s].
Proof.
  induction 1 as [|u s [Hlf Hcr] _ IH]; [reflexivity |].
  simpl. apply N.eqb_neq in Hlf, Hcr. rewrite Hlf, Hcr, IH. reflexivity.
Qed.

Lemma updateDoc_inline (d : list jsstring) (l a b : Z) (t : jsstring) :
  0 <= a <= JS.length (Host.lineText d l) ->
  0 <= b <= JS.length (Host.lineText d l) ->
  Host.updateDoc d (mkChange (Pos.mk l a) (Pos.mk l b) [t])
  = setLine d l (firstn (Z.to_nat a) (Host.lineText d l) ++ t
                 ++ skipn (Z.to_nat b) (Host.lineText d l)).
Proof.
  intros Ha Hb. unfold Host.updateDoc, setLine. simpl.
  rewrite slice_prefix, slice_suffix by assumption.
  reflexivity.
Qed.

(** Replacing columns [a] to [b] of line [l] by a string without line
    breaks is one change of that line. *)
Lemma replaceRange_inline (w : world) (l a b : Z) (L code : jsstring) :
  Host.getLine l w = Some L ->
  0 <= a <= b -> b <= JS.length L -> noEOL code ->
  Host.replaceRange code (Pos.mk l a) (Pos.mk l b) w
  = Host.makeChange (mkChange (Pos.mk l a) (Pos.mk l b) [code]) w.
Proof.
  intros HL Hab Hb Hcode. apply getLine_Some in HL as [Hl HL].
  unfold Host.replaceRange.
  rewrite !clipPos_inside by (rewrite ?HL; lia).
  rewrite splitLines_noEOL by assumption.
  unfold Pos.cmp. simpl. rewrite Z.eqb_refl.
  destruct (Z.ltb_spec (b - a) 0); [lia | reflexivity].
Qed.

(** A position inside or at the edge of a replaced stretch of line [l]
    moves to the end of the inserted text. *)
Lemma adjustForChange_inline (l a b c : Z) (t : jsstring) :
  a <= c <= b ->
  Host.adjustForChange (Pos.mk l c) (mkChange (Pos.mk l a) (Pos.mk l b) [t])
  = Pos.mk l (a + JS.length t).
Proof.
  intros H. unfold Host.adjustForChange, Host.changeEnd, Pos.cmp. simpl.
  rewrite Z.eqb_refl.
  destruct (Z.ltb_spec (c - a) 0); [lia |].
  destruct (Z.leb_spec (c - b) 0); [| lia].
  f_equal; lia.
Qed.

Lemma length_setLine (d : list jsstring) (l : Z) (L' : jsstring) :
  0 <= l < Z.of_nat (List.length d) ->
  List.length (setLine d l L') = List.length d.
Proof.
  intros H. unfold setLine.
  rewrite length_app, length_firstn. simpl. rewrite length_skipn. lia.
Qed.

Lemma lineText_setLine (d : list jsstring) (l : Z) (L' : jsstring) :
  0 <= l < Z.of_nat (List.length d) ->
  Host.lineText (setLine d l L') l = L'.
Proof.
  intros H. unfold Host.lineText, setLine.
  rewrite app_nth2; rewrite length_firstn; [| lia].
  replace (Z.to_nat l - Nat.min (Z.to_nat l) (List.length d))%nat with 0%nat
    by lia.
  reflexivity.
Qed.

Lemma Pos_eqb_eq (p q : Pos.t) : Pos.eqb p q = true <-> p = q.
Proof.
  destruct p as [l c], q as [l' c']. unfold Pos.eqb. simpl.
  rewrite andb_true_iff, !Z.eqb_eq. split.
  - intros [-> ->]; reflexivity.
  - intros [= -> ->]; auto.
Qed.

Lemma ranges_makeChange (c : change) (w : world) :
  ranges (Host.makeChange c w) = map (Host.adjustRange c) (ranges w).
Proof. unfold ranges. simpl. rewrite map_app. reflexivity. Qed.

(** A change keeps empty ranges empty. *)
Lemma makeChange_nothing_selected (c : change) (w : world) :
  Host.somethingSelected w = false ->
  Host.somethingSelected (Host.makeChange c w) = false.
Proof.
  unfold Host.somethingSelected. rewrite ranges_makeChange.
  induction (ranges w) as [|r rs IH]; simpl; [reflexivity |].
  rewrite !orb_false_iff, !negb_false_iff. intros [Hr Hrs].
  split; [| auto].
  unfold Host.rangeEmpty in *. apply Pos_eqb_eq in Hr. simpl.
  rewrite Hr. apply Pos_eqb_eq. reflexivity.
Qed.

(** C4: Backspace with nothing selected, an opener before the cursor and
    that opener's closer behind it sends one [replaceRange] that removes the
    two characters: the line is two code units shorter, the other lines
    stay, the cursor is one column to the left, where the pair was.  In every
    other case the handler sends nothing and leaves the default delete to the
    editor. *)
Theorem backspace_between_pair (event : Event) (w : world) (L : jsstring) :
  Host.getLine (Pos.line (cursor w)) w = Some L ->
  let l := Pos.line (cursor w) in
  let ch := Pos.ch (cursor w) in
  let prevChar := charAt L (ch - 1) in
  let nextChar := charAt L ch in
  let L' := firstn (Z.to_nat (ch - 1)) L ++ skipn (Z.to_nat (ch + 1)) L in
  (Host.somethingSelected w = false ->
   isOpenBracket prevChar = true ->
   getCloseBracket prevChar = Some nextChar ->
   exists w',
     run (handleBackspace event) w = Some w'
     /\ doc w' = setLine (doc w) l L'
     /\ JS.length L' = JS.length L - 2
     /\ cursor w' = Pos.mk l (ch - 1)
     /\ Host.somethingSelected w' = false
     /\ defaultPrevented w' = true
     /\ issued w' =
          issued w ++ [PreventDefault;
                       ReplaceRange [] (Pos.mk l (ch - 1)) (Pos.mk l (ch + 1))])
  /\ (Host.somethingSelected w = true
      \/ isOpenBracket prevChar = false
      \/ getCloseBracket prevChar <> Some nextChar ->
      exists w', run (handleBackspace event) w = Some w' /\ untouched w w').
Proof.
  intros HL l ch prevChar nextChar L'. split.
  - intros Hsel Hopen Hclose.
    destruct (getCloseBracket_opener _ Hopen) as (o & x & Ho & Hx & _).
    assert (Hnext : nextChar = [x]) by congruence.
    destruct (charAt_unit _ _ _ Ho) as [Hp _].
    destruct (charAt_unit _ _ _ Hnext) as [Hn _].
    unfold run, handleBackspace. step.
    rewrite Hsel, HL. simpl. fold l ch prevChar nextChar.
    rewrite Hopen, Hclose. simpl. rewrite eqb_refl.
    rewrite replaceRange_inline with (L := L);
      [| exact HL | lia | lia | constructor].
    eexists. split; [reflexivity |].
    apply getLine_Some in HL as [Hl HL]. simpl in HL. fold l in HL, Hl.
    simpl.
    rewrite updateDoc_inline by (rewrite HL; lia).
    rewrite HL. cbn [app]. fold L'.
    assert (Hlen : JS.length L' = JS.length L - 2).
    { unfold L', JS.length in *.
      rewrite length_app, length_firstn, length_skipn. lia. }
    assert (Hcur : Host.adjustForChange (head (primary w))
                     (mkChange (Pos.mk l (ch - 1)) (Pos.mk l (ch + 1)) [[]])
                   = Pos.mk l (ch - 1)).
    { replace (head (primary w)) with (Pos.mk l ch)
        by (unfold l, ch, cursor; destruct (head (primary w)); reflexivity).
      rewrite adjustForChange_inline by lia. unfold JS.length. simpl. f_equal. lia. }
    rewrite <- app_assoc.
    repeat split; try assumption; try reflexivity.
    apply makeChange_nothing_selected. exact Hsel.
  - intros H. unfold run, handleBackspace. step.
    destruct (Host.somethingSelected w) eqn:Hsel.
    { eexists. split; [reflexivity |]. repeat split. }
    rewrite HL. simpl. fold l ch prevChar nextChar.
    destruct (isOpenBracket prevChar) eqn:Hopen; simpl.
    2:{ eexists. split; [reflexivity |]. repeat split. }
    destruct (getCloseBracket prevChar) as [x|] eqn:Hclose; simpl.
    2:{ eexists. split; [reflexivity |]. repeat split. }
    destruct (eqb nextChar x) eqn:E.
    { apply eqb_eq in E. subst x.
      destruct H as [H | [H | H]]; congruence. }
    eexists. split; [reflexivity |]. repeat split.
Qed.

(** ** Keypress *)

(** C5: typing a closer (a pure closer or a symmetric delimiter) when the
    character behind the cursor is that same character prevents the default
    and sets the cursor one column to the right; no [replaceRange] is sent
    and the document is the same. *)
Theorem typing_through_closer (event : Event) (w : world) (L : jsstring) :
  let char := fromCharCode (charCode event) in
  let pos := cursor w in
  let pos' := Pos.mk (Pos.line pos) (Pos.ch pos + 1) in
  Host.getLine (Pos.line pos) w = Some L ->
  isCloseBracket char = true ->
  charAt L (Pos.ch pos) = char ->
  run (handleKeypress event) w
  = Some (mkWorld (doc w) [] (cursorAt pos') [] (indentUnit w) true
                  (issued w ++ [PreventDefault; SetCursor pos'])
                  (lookups w ++ [char])).
Proof.
  intros char pos pos' HL Hclose Hnext.
  destruct (isCloseBracket_unit _ Hclose) as [x Hx].
  rewrite Hx in Hnext. destruct (charAt_unit _ _ _ Hnext) as [Hch _].
  rewrite <- Hx in Hnext.
  assert (Hclip : Host.clipPos (doc w) pos' = pos').
  { apply getLine_Some in HL as [Hl HL].
    apply clipPos_inside; [assumption | rewrite HL; lia]. }
  unfold run, handleKeypress. fold char. clearbody char. rewrite Hclose.
  destruct (isOpenBracket char); step; fold pos; rewrite HL; simpl;
    rewrite Hnext, eqb_refl; simpl; unfold Host.setCursor; simpl;
    fold pos'; rewrite Hclip, <- app_assoc; reflexivity.
Qed.


Lemma pos_eta (p : Pos.t) : p = Pos.mk (Pos.line p) (Pos.ch p).
Proof. destruct p; reflexivity. Qed.

(** Whether something is selected depends on the ranges alone. *)
Lemma somethingSelected_ranges (w w' : world) :
  ranges w' = ranges w ->
  Host.somethingSelected w' = Host.somethingSelected w.
Proof. unfold Host.somethingSelected. intros ->. reflexivity. Qed.

Lemma updateDoc_insert (d : list jsstring) (p : Pos.t) (t : jsstring) :
  0 <= Pos.ch p <= JS.length (Host.lineText d (Pos.line p)) ->
  Host.updateDoc d (mkChange p p [t])
  = setLine d (Pos.line p)
      (firstn (Z.to_nat (Pos.ch p)) (Host.lineText d (Pos.line p)) ++ t
       ++ skipn (Z.to_nat (Pos.ch p)) (Host.lineText d (Pos.line p))).
Proof. destruct p as [l c]. intros H. apply updateDoc_inline; exact H. Qed.

(** C1: with nothing selected, typing an opener inserts the opener and its
    closer at the cursor in one [replaceRange] and sets the cursor between
    the two, provided the opener is not a symmetric delimiter typed just
    before the same character (that keystroke only moves the cursor). *)
Theorem keypress_opener_inserts_pair
  (event : Event) (w : world) (L : jsstring) :
  let char := fromCharCode (charCode event) in
  let pos := cursor w in
  let pos' := Pos.mk (Pos.line pos) (Pos.ch pos + 1) in
  Host.getLine (Pos.line pos) w = Some L ->
  0 <= Pos.ch pos <= JS.length L ->
  Host.somethingSelected w = false ->
  isOpenBracket char = true ->
  isCloseBracket char = false \/ charAt L (Pos.ch pos) <> char ->
  exists close,
    getCloseBracket char = Some close
    /\ run (handleKeypress event) w
       = Some (mkWorld
                 (setLine (doc w) (Pos.line pos)
                    (firstn (Z.to_nat (Pos.ch pos)) L ++ (char ++ close)
                     ++ skipn (Z.to_nat (Pos.ch pos)) L))
                 [] (cursorAt pos') [] (indentUnit w) true
                 (issued w ++ [PreventDefault;
                               ReplaceRange (char ++ close) pos pos;
                               SetCursor pos'])
                 (lookups w ++ [char])).
Proof.
  intros char pos pos' HL Hch Hsel Hopen Hnext.
  destruct (getCloseBracket_opener _ Hopen) as (o & x & Ho & Hx & _ & Eo & Ex).
  exists [x]. split; [assumption |].
  assert (Hcode : noEOL (char ++ [x])).
  { rewrite Ho. apply Forall_app; split; assumption. }
  assert (Hauto : eqb char (charAt L (Pos.ch pos)) = false
                  \/ isCloseBracket char = false).
  { destruct Hnext as [H | H]; [right; assumption | left].
    apply eqb_neq. congruence. }
  unfold run, handleKeypress. fold char. clearbody char. rewrite Hopen.
  assert (Hrun :
    forall w1, ranges w1 = ranges w -> doc w1 = doc w ->
      Host.replaceRange (char ++ [x]) pos pos w1
      = Host.makeChange (mkChange pos pos [char ++ [x]]) w1).
  { intros w1 Hr Hd. rewrite (pos_eta pos) at 1 2.
    rewrite replaceRange_inline with (L := L); try assumption; try lia.
    - rewrite <- pos_eta. reflexivity.
    - unfold Host.getLine in *. rewrite Hd. exact HL. }
  assert (Hgoal :
    option_map snd
      ((preventDefault ;;
        selected <- cm.somethingSelected ;;
        if selected then
          selections <- cm.listSelections ;;
          forEach selections (fun selection =>
            text <- cm.getRange (anchor selection) (head selection) ;;
            cm.replaceRange (char ++ text ++ toString (Some [x]))
                            (anchor selection) (Some (head selection)))
        else
          cm.replaceRange (char ++ toString (Some [x])) pos None ;;
          cm.setCursor pos')
         (mkWorld (doc w) (selBefore w) (primary w) (selAfter w)
                  (indentUnit w) (defaultPrevented w) (issued w)
                  (lookups w ++ [char])))
    = Some (mkWorld
              (setLine (doc w) (Pos.line pos)
                 (firstn (Z.to_nat (Pos.ch pos)) L ++ (char ++ [x])
                  ++ skipn (Z.to_nat (Pos.ch pos)) L))
              [] (cursorAt pos') [] (indentUnit w) true
              (issued w ++ [PreventDefault;
                            ReplaceRange (char ++ [x]) pos pos;
                            SetCursor pos'])
              (lookups w ++ [char]))).
  { step.
    rewrite (somethingSelected_ranges w) by reflexivity.
    rewrite Hsel, Hrun by reflexivity.
    unfold Host.setCursor. simpl.
    apply getLine_Some in HL as [Hl HL].
    rewrite updateDoc_insert by (rewrite HL; lia).
    rewrite HL. unfold pos' at 1 2. rewrite clipPos_inside.
    - rewrite <- !app_assoc. reflexivity.
    - rewrite length_setLine; assumption.
    - rewrite lineText_setLine by assumption.
      unfold JS.length in *. simpl.
      rewrite !length_app, length_firstn, length_skipn. simpl. lia. }
  step. fold pos. rewrite HL. simpl. rewrite Hx.
  destruct (isCloseBracket char); simpl.
  - destruct Hauto as [E | E]; [| discriminate]. rewrite E. exact Hgoal.
  - exact Hgoal.
Qed.

(** ** Enter *)

Lemma splitLines_app_LF (a b : jsstring) :
  noEOL a -> splitLines (a ++ LF :: b) = a :: splitLines b.
Proof.
  induction 1 as [|u a [Hlf Hcr] _ IH]; [reflexivity |].
  simpl. apply N.eqb_neq in Hlf, Hcr. rewrite Hlf, Hcr, IH. reflexivity.
Qed.

Lemma matchLeadingWhitespace_prefix (L : jsstring) :
  exists rest, L = matchLeadingWhitespace L ++ rest.
Proof.
  induction L as [|u L [rest IH]]; [exists []; reflexivity |].
  cbn. destruct (isWhiteSpace u).
  - exists rest. simpl. f_equal. exact IH.
  - exists (u :: L). reflexivity.
Qed.

Lemma matchLeadingWhitespace_noEOL (L : jsstring) :
  noEOL L -> noEOL (matchLeadingWhitespace L).
Proof.
  induction 1 as [|u L Hu _ IH]; cbn; [constructor |].
  destruct (isWhiteSpace u); constructor; assumption.
Qed.

(** The white space at the start of a line ends before any character that
    is not white space. *)
Lemma matchLeadingWhitespace_before (L : jsstring) (i : nat) (u : N) :
  nth_error L i = Some u -> isWhiteSpace u = false ->
  (List.length (matchLeadingWhitespace L) <= i)%nat.
Proof.
  revert i. induction L as [|v L IH]; intros i Hi Hu; cbn; [lia |].
  destruct i as [|i]; simpl in Hi.
  - injection Hi as ->. rewrite Hu. simpl. lia.
  - destruct (isWhiteSpace v); simpl; [| lia].
    apply IH in Hi; [lia | assumption].
Qed.

Lemma repeat_space_noEOL (n : nat) : noEOL (JS.repeat (lit " ") n).
Proof.
  unfold JS.repeat. induction n as [|n IH]; simpl; constructor.
  - split; discriminate.
  - exact IH.
Qed.

Lemma length_repeat_space (n : nat) :
  JS.length (JS.repeat (lit " ") n) = Z.of_nat n.
Proof.
  unfold JS.repeat, JS.length. induction n as [|n IH]; [reflexivity |].
  change (List.concat (List.repeat (lit " ") (S n)))
    with (SPACE :: List.concat (List.repeat (lit " ") n)).
  cbn [List.length]. lia.
Qed.

Lemma opener_not_space (o : N) :
  isOpenBracket [o] = true -> isWhiteSpace o = false.
Proof.
  intros H. apply isOpenBracket_cases in H.
  destruct H as [H | [H | [H | [H | [H | H]]]]];
    injection H as ->; reflexivity.
Qed.

(** The lines the three-line text is split into. *)
Lemma splitLines_newLine (ind extra : jsstring) :
  noEOL ind -> noEOL extra ->
  splitLines ([LF] ++ ind ++ extra ++ [LF] ++ ind) = [[]; ind ++ extra; ind].
Proof.
  intros Hi He. change ([LF] ++ ind ++ extra ++ [LF] ++ ind)
    with (LF :: ind ++ extra ++ LF :: ind).
  change (splitLines (LF :: ind ++ extra ++ LF :: ind))
    with ([] :: splitLines (ind ++ extra ++ LF :: ind)).
  rewrite app_assoc, splitLines_app_LF, splitLines_noEOL; trivial.
  apply Forall_app; split; assumption.
Qed.

(** Inserting at a position of the document. *)
Lemma replaceRange_lines
  (w : world) (p : Pos.t) (code : jsstring) (ls : list jsstring) :
  Host.clipPos (doc w) p = p -> splitLines code = ls ->
  Host.replaceRange code p p w = Host.makeChange (mkChange p p ls) w.
Proof.
  intros Hp Hls. unfold Host.replaceRange. rewrite Hp, Hls.
  unfold Pos.cmp. rewrite Z.eqb_refl, Z.sub_diag. reflexivity.
Qed.

(** What [handleEnter] does under the test it makes: an opener before the
    cursor, any closer behind it. *)
Lemma handleEnter_splits (event : Event) (w : world) (L : jsstring) :
  let pos := cursor w in
  let indentation := matchLeadingWhitespace L in
  let middle := indentation ++ JS.repeat (lit " ") (indentUnit w) in
  let newLine := [LF] ++ middle ++ [LF] ++ indentation in
  let pos' := Pos.mk (Pos.line pos + 1) (JS.length middle) in
  Host.getLine (Pos.line pos) w = Some L ->
  noEOL L ->
  isOpenBracket (charAt L (Pos.ch pos - 1)) = true ->
  isCloseBracket (charAt L (Pos.ch pos)) = true ->
  run (handleEnter event) w
  = Some (mkWorld
            (firstn (Z.to_nat (Pos.line pos)) (doc w)
             ++ [firstn (Z.to_nat (Pos.ch pos)) L;
                 middle;
                 indentation ++ skipn (Z.to_nat (Pos.ch pos)) L]
             ++ skipn (Z.to_nat (Pos.line pos + 1)) (doc w))
            [] (cursorAt pos') [] (indentUnit w) true
            (issued w ++ [PreventDefault; ReplaceRange newLine pos pos;
                          SetCursor pos'])
            (lookups w)).
Proof.
  intros pos indentation middle newLine pos' HL HnoEOL Hopen Hclose.
  destruct (getCloseBracket_opener _ Hopen) as (o & _ & Ho & _).
  destruct (charAt_unit _ _ _ Ho) as [Hch _].
  assert (Hind : noEOL indentation)
    by (apply matchLeadingWhitespace_noEOL; assumption).
  assert (Hsplit : splitLines newLine = [[]; middle; indentation]).
  { unfold newLine, middle. rewrite <- app_assoc.
    apply splitLines_newLine; [assumption | apply repeat_space_noEOL]. }
  assert (Hmid : JS.length middle
                 = JS.length indentation + Z.of_nat (indentUnit w)).
  { unfold middle, JS.length. rewrite length_app.
    pose proof (length_repeat_space (indentUnit w)) as E.
    unfold JS.length in E. lia. }
  apply getLine_Some in HL as HL'. destruct HL' as [Hl HLt].
  assert (Hclip : Host.clipPos (doc w) pos = pos).
  { rewrite (pos_eta pos). apply clipPos_inside; [assumption |].
    rewrite HLt. lia. }
  set (d' := firstn (Z.to_nat (Pos.line pos)) (doc w)
             ++ [firstn (Z.to_nat (Pos.ch pos)) L; middle;
                 indentation ++ skipn (Z.to_nat (Pos.ch pos)) L]
             ++ skipn (Z.to_nat (Pos.line pos + 1)) (doc w)).
  assert (Hdoc : Host.updateDoc (doc w)
                   (mkChange pos pos [[]; middle; indentation]) = d').
  { unfold Host.updateDoc. cbn [from to text Host.appendLast Host.prependFirst].
    rewrite HLt, slice_prefix, slice_suffix by lia.
    rewrite app_nil_r. reflexivity. }
  assert (Hclip' : Host.clipPos d' pos' = pos').
  { assert (Hfirst : List.length (firstn (Z.to_nat (Pos.line pos)) (doc w))
                     = Z.to_nat (Pos.line pos))
      by (rewrite length_firstn; lia).
    apply clipPos_inside.
    - unfold d'. rewrite !length_app, Hfirst. cbn [List.length]. lia.
    - unfold Host.lineText, d'. rewrite app_nth2; rewrite Hfirst; [| lia].
      replace (Z.to_nat (Pos.line pos + 1) - Z.to_nat (Pos.line pos))%nat
        with 1%nat by lia.
      change (nth 1 ([firstn (Z.to_nat (Pos.ch pos)) L; middle;
                      indentation ++ skipn (Z.to_nat (Pos.ch pos)) L]
                     ++ skipn (Z.to_nat (Pos.line pos + 1)) (doc w)) [])
        with middle.
      unfold JS.length. lia. }
  unfold run, handleEnter. step. fold pos. rewrite HL. cbn.
  rewrite Hopen, Hclose. cbn. fold indentation.
  rewrite <- Hmid. fold pos'.
  change (LF :: indentation ++ JS.repeat (lit " ") (indentUnit w)
          ++ LF :: indentation)
    with ([LF] ++ indentation ++ JS.repeat (lit " ") (indentUnit w)
          ++ [LF] ++ indentation).
  rewrite (app_assoc indentation). fold middle. fold newLine.
  rewrite replaceRange_lines with (ls := [[]; middle; indentation])
    by assumption.
  unfold Host.setCursor. cbn.
  rewrite Hdoc, Hclip', <- !app_assoc. reflexivity.
Qed.

(** [handleEnter] leaves the keystroke alone when its test fails. *)
Lemma handleEnter_passes (event : Event) (w : world) (L : jsstring) :
  Host.getLine (Pos.line (cursor w)) w = Some L ->
  isOpenBracket (charAt L (Pos.ch (cursor w) - 1))
  && isCloseBracket (charAt L (Pos.ch (cursor w))) = false ->
  handleEnter event w = Some (tt, w).
Proof.
  intros HL H. unfold handleEnter. step. rewrite HL. cbn. rewrite H.
  reflexivity.
Qed.

(** C6: between an opener and its closer, Enter turns the line into three:
    the text up to the cursor, which starts with the line's leading white
    space; that white space followed by [indentUnit] spaces, with the cursor
    at its end; that white space followed by the text from the cursor on.
    The middle line is there for every indent width, 0 included. *)
Theorem enter_splits_into_three_lines
  (event : Event) (w : world) (L : jsstring) :
  let pos := cursor w in
  let prevChar := charAt L (Pos.ch pos - 1) in
  let nextChar := charAt L (Pos.ch pos) in
  let indentation := matchLeadingWhitespace L in
  let middle := indentation ++ JS.repeat (lit " ") (indentUnit w) in
  Host.getLine (Pos.line pos) w = Some L ->
  noEOL L ->
  isOpenBracket prevChar = true ->
  getCloseBracket prevChar = Some nextChar ->
  exists content w',
    firstn (Z.to_nat (Pos.ch pos)) L = indentation ++ content
    /\ run (handleEnter event) w = Some w'
    /\ doc w' = firstn (Z.to_nat (Pos.line pos)) (doc w)
                ++ [indentation ++ content;
                    middle;
                    indentation ++ skipn (Z.to_nat (Pos.ch pos)) L]
                ++ skipn (Z.to_nat (Pos.line pos + 1)) (doc w)
    /\ List.length (doc w') = (List.length (doc w) + 2)%nat
    /\ JS.length middle = JS.length indentation + Z.of_nat (indentUnit w)
    /\ primary w' = cursorAt (Pos.mk (Pos.line pos + 1) (JS.length middle))
    /\ ranges w' = [primary w']
    /\ defaultPrevented w' = true.
Proof.
  intros pos prevChar nextChar indentation middle HL HnoEOL Hopen Hclose.
  destruct (getCloseBracket_opener _ Hopen) as (o & x & Ho & Hx & Hcl & _).
  assert (Hnext : isCloseBracket nextChar = true) by congruence.
  pose proof (handleEnter_splits event w L HL HnoEOL Hopen Hnext) as Hrun.
  cbv zeta in Hrun. fold pos indentation middle in Hrun.
  destruct (charAt_unit _ _ _ Ho) as [Hch Hnth].
  destruct (matchLeadingWhitespace_prefix L) as [rest Hrest].
  fold indentation in Hrest.
  assert (Hlen : (List.length indentation <= Z.to_nat (Pos.ch pos - 1))%nat).
  { apply matchLeadingWhitespace_before with (u := o); [assumption |].
    apply opener_not_space. unfold prevChar in Hopen. rewrite <- Ho.
    exact Hopen. }
  exists (firstn (Z.to_nat (Pos.ch pos) - List.length indentation) rest).
  eexists. split.
  { rewrite Hrest at 1. rewrite firstn_app, firstn_all2 by lia. reflexivity. }
  split; [exact Hrun |].
  cbn [doc primary defaultPrevented ranges selBefore selAfter app].
  assert (Hpre : firstn (Z.to_nat (Pos.ch pos)) L
                 = indentation
                   ++ firstn (Z.to_nat (Pos.ch pos) - List.length indentation)
                        rest).
  { rewrite Hrest at 1. rewrite firstn_app, firstn_all2 by lia. reflexivity. }
  rewrite Hpre. split; [reflexivity |].
  apply getLine_Some in HL as [Hl _].
  split.
  { rewrite length_app, length_firstn. cbn [app List.length].
    rewrite length_skipn. lia. }
  split.
  { unfold middle, JS.length. rewrite length_app.
    pose proof (length_repeat_space (indentUnit w)) as E.
    unfold JS.length in E. lia. }
  repeat split.
Qed.

(** C3: on the line "(]" with the cursor between the two characters, Enter
    is taken over and the line is split, although "]" is not the closer of
    "(": the test accepts any closer behind an opener. *)
Theorem enter_fires_on_mismatched_pair :
  getCloseBracket (charAt (lit "(]") 0) = Some (lit ")")
  /\ charAt (lit "(]") 1 = lit "]"
  /\ run (handleKeydown (keydown "Enter")) (editing [lit "(]"] 0 1 2)
     = Some (mkWorld [lit "("; lit "  "; lit "]"] []
                     (cursorAt (Pos.mk 1 2)) [] 2 true
                     [PreventDefault;
                      ReplaceRange ([LF] ++ lit "  " ++ [LF])
                                   (Pos.mk 0 1) (Pos.mk 0 1);
                      SetCursor (Pos.mk 1 2)]
                     []).
Proof. vm_compute. repeat split. Qed.

(** ** What a keystroke sends *)

Lemma frame_replaceRange (code : jsstring) (p q : Pos.t) (w : world) :
  let w' := Host.replaceRange code p q w in
  indentUnit w' = indentUnit w /\ defaultPrevented w' = defaultPrevented w
  /\ issued w' = issued w /\ lookups w' = lookups w.
Proof. unfold Host.replaceRange. cbn. repeat split. Qed.

(** The loop of [autocomplete] over the selections: one [replaceRange] for
    each range, nothing else. *)
Lemma forEach_wrap (char closing : jsstring) (rs : list Range) (w : world) :
  exists w' new,
    forEach rs (fun selection =>
      text <- cm.getRange (anchor selection) (head selection) ;;
      cm.replaceRange (char ++ text ++ closing)
                      (anchor selection) (Some (head selection))) w
    = Some (tt, w')
    /\ issued w' = issued w ++ new
    /\ edits new = List.length rs
    /\ indentUnit w' = indentUnit w
    /\ defaultPrevented w' = defaultPrevented w
    /\ lookups w' = lookups w.
Proof.
  revert w. induction rs as [|r rs IH]; intros w.
  - exists w, []. cbn. rewrite app_nil_r. repeat split.
  - cbn [forEach]. step.
    match goal with
    | |- context [forEach rs ?f ?w1] =>
        destruct (IH w1) as (w' & new & Hrun & Hi & He & Hu & Hp & Hl);
        set (w1' := w1) in *
    end.
    exists w'.
    exists (ReplaceRange
              (char ++ Host.getRange (anchor r) (head r) w ++ closing)
              (anchor r) (head r) :: new).
    split; [exact Hrun |].
    destruct (frame_replaceRange
                (char ++ Host.getRange (anchor r) (head r) w ++ closing)
                (anchor r) (head r)
                (log (ReplaceRange
                        (char ++ Host.getRange (anchor r) (head r) w ++ closing)
                        (anchor r) (head r)) w))
      as (Fu & Fp & Fi & Fl).
    unfold log in Fu, Fp, Fi, Fl. cbn in Fu, Fp, Fi, Fl.
    subst w1'. rewrite Hi, Hu, Hp, Hl, Fu, Fp, Fi, Fl.
    rewrite <- app_assoc. repeat split.
    change (edits (?c :: new)) with (S (edits new)). rewrite He. reflexivity.
Qed.

(** The inner function [autocomplete] of [handleKeypress], run in a world
    [w]: it prevents the default and then either inserts the pair at the
    cursor or wraps every selection. *)
Lemma autocomplete_runs (char : jsstring) (close : option jsstring)
  (pos : Pos.t) (w : world) :
  let pos' := Pos.mk (Pos.line pos) (Pos.ch pos + 1) in
  exists w',
    run (preventDefault ;;
         selected <- cm.somethingSelected ;;
         if selected then
           selections <- cm.listSelections ;;
           forEach selections (fun selection =>
             text <- cm.getRange (anchor selection) (head selection) ;;
             cm.replaceRange (char ++ text ++ toString close)
                             (anchor selection) (Some (head selection)))
         else
           cm.replaceRange (char ++ toString close) pos None ;;
           cm.setCursor pos') w
    = Some w'
    /\ lookups w' = lookups w
    /\ defaultPrevented w' = true
    /\ ((Host.somethingSelected w = false
         /\ issued w' = issued w
                        ++ [PreventDefault;
                            ReplaceRange (char ++ toString close) pos pos;
                            SetCursor pos'])
        \/ (Host.somethingSelected w = true
            /\ exists new,
                 issued w' = issued w ++ PreventDefault :: new
                 /\ edits new = List.length (ranges w))).
Proof.
  intros pos'. unfold run. step.
  rewrite (somethingSelected_ranges w) by reflexivity.
  destruct (Host.somethingSelected w) eqn:Hsel.
  - match goal with
    | |- context [forEach ?rs ?f ?w1] =>
        destruct (forEach_wrap char (toString close) rs w1)
          as (w' & new & Hrun & Hi & He & _ & Hp & Hl)
    end.
    exists w'. cbn in Hi, He, Hp, Hl.
    split; [exact (f_equal (option_map snd) Hrun) |].
    split; [assumption |]. split; [assumption |].
    right. split; [reflexivity |]. exists new.
    rewrite Hi, <- app_assoc. split; [reflexivity | exact He].
  - eexists. split; [reflexivity |].
    unfold Host.setCursor, Host.replaceRange. cbn.
    rewrite <- !app_assoc. repeat split. left. repeat split.
Qed.

(** Every way [handleKeypress] can return. *)
Lemma handleKeypress_cases (event : Event) (w w' : world) :
  let char := fromCharCode (charCode event) in
  let pos := cursor w in
  let pos' := Pos.mk (Pos.line pos) (Pos.ch pos + 1) in
  run (handleKeypress event) w = Some w' ->
  (isOpenBracket char = false /\ isCloseBracket char = false /\ w' = w)
  \/ exists L,
       Host.getLine (Pos.line pos) w = Some L
       /\ lookups w' = lookups w ++ [char]
       /\ ((isOpenBracket char = false /\ isCloseBracket char = true
            /\ charAt L (Pos.ch pos) <> char /\ untouched w w')
           \/ (isCloseBracket char = true /\ charAt L (Pos.ch pos) = char
               /\ doc w' = doc w /\ defaultPrevented w' = true
               /\ issued w' = issued w ++ [PreventDefault; SetCursor pos'])
           \/ (isOpenBracket char = true /\ Host.somethingSelected w = false
               /\ defaultPrevented w' = true
               /\ issued w' =
                    issued w
                    ++ [PreventDefault;
                        ReplaceRange (char ++ toString (getCloseBracket char))
                                     pos pos;
                        SetCursor pos'])
           \/ (isOpenBracket char = true /\ Host.somethingSelected w = true
               /\ defaultPrevented w' = true
               /\ exists new,
                    issued w' = issued w ++ PreventDefault :: new
                    /\ edits new = List.length (ranges w))).
Proof.
  intros char pos pos'. unfold run, handleKeypress. fold char.
  clearbody char. cbv zeta.
  destruct (isOpenBracket char) eqn:Hopen, (isCloseBracket char) eqn:Hclose;
    cbn [negb andb Bool.eqb].
  4:{ intros [= <-]. left. repeat split. }
  all: step; fold pos;
    destruct (Host.getLine (Pos.line pos) w) as [L|] eqn:HL; cbn;
    [| discriminate]; intros Hrun; right; exists L;
    (split; [reflexivity |]); revert Hrun;
    set (w1 := mkWorld (doc w) (selBefore w) (primary w) (selAfter w)
                 (indentUnit w) (defaultPrevented w) (issued w)
                 (lookups w ++ [char]));
    destruct (autocomplete_runs char (getCloseBracket char) pos w1)
      as (wa & Ha & Hal & Hap & Hai); fold pos' in Ha, Hai;
    assert (Hauto :
      Host.somethingSelected w = false
      /\ issued wa = issued w
                     ++ [PreventDefault;
                         ReplaceRange (char ++ toString (getCloseBracket char))
                                      pos pos;
                         SetCursor pos']
      \/ Host.somethingSelected w = true
         /\ exists new, issued wa = issued w ++ PreventDefault :: new
                        /\ edits new = List.length (ranges w))
      by exact Hai;
    clear Hai.
  - (* a symmetric delimiter *)
    destruct (eqb char (charAt L (Pos.ch pos))) eqn:E.
    + intros [= <-]. cbn.
      split; [reflexivity |]. right; left. apply eqb_eq in E.
      rewrite <- app_assoc. repeat split. congruence.
    + intros Hrun.
      assert (Hw : Some wa = Some w') by (rewrite <- Ha; exact Hrun).
      injection Hw as <-. split; [exact Hal |].
      destruct Hauto as [[Hs Hi] | [Hs Hi]].
      * right; right; left. repeat split; assumption.
      * right; right; right. repeat split; assumption.
  - (* a pure opener *)
    intros Hrun.
    assert (Hw : Some wa = Some w') by (rewrite <- Ha; exact Hrun).
    injection Hw as <-. split; [exact Hal |].
    destruct Hauto as [[Hs Hi] | [Hs Hi]].
    * right; right; left. repeat split; assumption.
    * right; right; right. repeat split; assumption.
  - (* a pure closer *)
    destruct (eqb char (charAt L (Pos.ch pos))) eqn:E.
    + intros [= <-]. cbn.
      split; [reflexivity |]. right; left. apply eqb_eq in E.
      rewrite <- app_assoc. repeat split. congruence.
    + intros [= <-]. cbn.
      split; [reflexivity |]. left. apply eqb_neq in E.
      repeat split. congruence.
Qed.

(** Every way [handleKeydown] can return: untouched, or one [replaceRange]
    with the default prevented; a table lookup only for an opener. *)
Lemma handleKeydown_cases (event : Event) (w w' : world) :
  run (handleKeydown event) w = Some w' ->
  exists new extra,
    issued w' = issued w ++ new
    /\ lookups w' = lookups w ++ extra
    /\ Forall (fun c => isOpenBracket c = true) extra
    /\ ((new = [] /\ untouched w w')
        \/ (defaultPrevented w' = true /\ edits new = 1%nat)).
Proof.
  unfold run, handleKeydown.
  assert (Hret : Some w = Some w' ->
    exists new extra,
      issued w' = issued w ++ new
      /\ lookups w' = lookups w ++ extra
      /\ Forall (fun c => isOpenBracket c = true) extra
      /\ ((new = [] /\ untouched w w')
          \/ (defaultPrevented w' = true /\ edits new = 1%nat))).
  { intros [= <-]. exists [], []. rewrite !app_nil_r.
    split; [reflexivity |]. split; [reflexivity |]. split; [constructor |].
    left. repeat split. }
  destruct (eqb (key event) (lit "Enter")).
  - unfold handleEnter. step.
    destruct (Host.getLine (Pos.line (cursor w)) w) as [L|]; cbn;
      [| discriminate].
    destruct (isOpenBracket (charAt L (Pos.ch (cursor w) - 1))
              && isCloseBracket (charAt L (Pos.ch (cursor w)))); cbn;
      [| exact Hret].
    clear Hret.
    unfold Host.setCursor, Host.replaceRange. cbn. intros [= <-]. cbn.
    rewrite <- !app_assoc. eexists. exists [].
    split; [reflexivity |]. split; [symmetry; apply app_nil_r |].
    split; [constructor |]. right. split; reflexivity.
  - destruct (eqb (key event) (lit "Backspace")); [| exact Hret].
    unfold handleBackspace. step.
    destruct (Host.somethingSelected w); [exact Hret |].
    destruct (Host.getLine (Pos.line (cursor w)) w) as [L|]; cbn;
      [| discriminate].
    destruct (isOpenBracket (charAt L (Pos.ch (cursor w) - 1))) eqn:Hopen; cbn;
      [| exact Hret].
    destruct (strictEq (charAt L (Pos.ch (cursor w)))
                (getCloseBracket (charAt L (Pos.ch (cursor w) - 1)))).
    + clear Hret. unfold Host.replaceRange. cbn. intros [= <-]. cbn.
      rewrite <- !app_assoc. eexists. eexists.
      split; [reflexivity |]. split; [reflexivity |].
      split; [repeat constructor; exact Hopen |]. right. split; reflexivity.
    + clear Hret. intros [= <-]. cbn. exists []. eexists. rewrite app_nil_r.
      split; [reflexivity |]. split; [reflexivity |].
      split; [repeat constructor; exact Hopen |]. left. repeat split.
Qed.

(** Every call of [getCloseBracket]: the keypress handler makes one for
    every typed character that is an opener or a closer, so also for a
    closer that is no opener; then it sends no [replaceRange], and the
    looked-up value goes nowhere.  The keydown handler calls it for openers
    only. *)
Theorem lookup_after_classification (event : Event) (w w' : world) :
  let char := fromCharCode (charCode event) in
  (run (handleKeypress event) w = Some w' ->
   lookups w' = lookups w
                ++ (if isOpenBracket char || isCloseBracket char
                    then [char] else [])
   /\ (isOpenBracket char = false ->
       exists new, issued w' = issued w ++ new /\ edits new = 0%nat))
  /\ (run (handleKeydown event) w = Some w' ->
      exists extra,
        lookups w' = lookups w ++ extra
        /\ Forall (fun c => isOpenBracket c = true) extra).
Proof.
  intros char. split.
  - intros Hrun. apply handleKeypress_cases in Hrun. fold char in Hrun.
    destruct Hrun as [(Ho & Hc & ->) | (L & HL & Hl & Hcases)].
    + rewrite Ho, Hc, app_nil_r. split; [reflexivity |].
      intros _. exists []. rewrite app_nil_r. split; reflexivity.
    + assert (Hoc : isOpenBracket char || isCloseBracket char = true).
      { destruct Hcases as [(_ & -> & _) | [(-> & _) | [(-> & _) | (-> & _)]]];
          auto using orb_true_r. }
      rewrite Hoc. split; [exact Hl |]. intros Hno.
      destruct Hcases as [(_ & _ & _ & U) | [(_ & _ & _ & _ & Hi)
                          | [(Ho & _) | (Ho & _)]]]; try congruence.
      * exists []. rewrite app_nil_r. split; [apply U | reflexivity].
      * eexists. split; [exact Hi | reflexivity].
  - intros Hrun. apply handleKeydown_cases in Hrun.
    destruct Hrun as (new & extra & _ & Hl & Hf & _).
    exists extra. split; assumption.
Qed.

(** The handlers return whenever the cursor stands on a line of the
    document. *)
Lemma handleKeypress_returns (event : Event) (w : world) (L : jsstring) :
  Host.getLine (Pos.line (cursor w)) w = Some L ->
  exists w', run (handleKeypress event) w = Some w'.
Proof.
  intros HL. unfold run, handleKeypress.
  set (char := fromCharCode (charCode event)). clearbody char. cbv zeta.
  set (w1 := mkWorld (doc w) (selBefore w) (primary w) (selAfter w)
               (indentUnit w) (defaultPrevented w) (issued w)
               (lookups w ++ [char])).
  destruct (autocomplete_runs char (getCloseBracket char) (cursor w) w1)
    as (wa & Ha & _).
  destruct (isOpenBracket char), (isCloseBracket char);
    cbn [negb andb Bool.eqb]; [| | | eexists; reflexivity];
    step; rewrite HL; cbn;
    try destruct (eqb char (charAt L (Pos.ch (cursor w))));
    try (eexists; reflexivity); exists wa; exact Ha.
Qed.


Lemma ranges_not_nil (w : world) : List.length (ranges w) <> 0%nat.
Proof. unfold ranges. rewrite length_app. cbn [List.length]. lia. Qed.

Lemma edits_all (cs : list command) :
  Forall (fun c => isReplaceRange c = true) cs -> edits cs = List.length cs.
Proof.
  unfold edits. induction 1 as [|c cs Hc _ IH]; [reflexivity |].
  cbn [filter]. rewrite Hc. cbn [List.length]. rewrite IH. reflexivity.
Qed.

(** The loop of [autocomplete] sends [replaceRange] calls only, as many as
    there are ranges. *)
Lemma forEach_wrap_commands (char closing : jsstring) (rs : list Range)
  (w : world) :
  exists w' new,
    forEach rs (fun selection =>
      text <- cm.getRange (anchor selection) (head selection) ;;
      cm.replaceRange (char ++ text ++ closing)
                      (anchor selection) (Some (head selection))) w
    = Some (tt, w')
    /\ issued w' = issued w ++ new
    /\ Forall (fun c => isReplaceRange c = true) new
    /\ List.length new = List.length rs
    /\ defaultPrevented w' = defaultPrevented w.
Proof.
  revert w. induction rs as [|r rs IH]; intros w.
  - exists w, []. cbn. rewrite app_nil_r.
    split; [reflexivity |]. split; [reflexivity |].
    split; [constructor |]. split; reflexivity.
  - cbn [forEach]. step.
    match goal with
    | |- context [forEach rs ?f ?w1] =>
        destruct (IH w1) as (w' & new & Hrun & Hi & Hf & Hn & Hp);
        set (w1' := w1) in *
    end.
    exists w'.
    exists (ReplaceRange
              (char ++ Host.getRange (anchor r) (head r) w ++ closing)
              (anchor r) (head r) :: new).
    split; [exact Hrun |].
    destruct (frame_replaceRange
                (char ++ Host.getRange (anchor r) (head r) w ++ closing)
                (anchor r) (head r)
                (log (ReplaceRange
                        (char ++ Host.getRange (anchor r) (head r) w ++ closing)
                        (anchor r) (head r)) w))
      as (_ & Fp & Fi & _).
    unfold log in Fp, Fi. cbn in Fp, Fi.
    subst w1'. rewrite Hi, Hp, Fp, Fi, <- app_assoc.
    split; [reflexivity |].
    split; [constructor; [reflexivity | exact Hf] |].
    split; [cbn [List.length]; rewrite Hn |]; reflexivity.
Qed.

(** What [autocomplete] sends: first [preventDefault], then commands for
    the editor only, among them one [replaceRange] for each range when
    something is selected and one [replaceRange] otherwise. *)
Lemma autocomplete_sends (char : jsstring) (close : option jsstring)
  (pos : Pos.t) (w : world) :
  exists w' rest,
    run (autocomplete char close pos) w = Some w'
    /\ issued w' = issued w ++ PreventDefault :: rest
    /\ rest <> []
    /\ Forall (fun c => toEditor c = true) rest
    /\ edits rest = (if Host.somethingSelected w
                     then List.length (ranges w) else 1%nat)
    /\ defaultPrevented w' = true.
Proof.
  unfold run, autocomplete. step.
  rewrite (somethingSelected_ranges w) by reflexivity.
  destruct (Host.somethingSelected w) eqn:Hsel.
  - match goal with
    | |- context [forEach ?rs ?f ?w1] =>
        destruct (forEach_wrap_commands char (toString close) rs w1)
          as (w' & new & Hrun & Hi & Hf & Hn & Hp)
    end.
    cbn in Hi, Hn, Hp. exists w', new.
    split; [exact (f_equal (option_map snd) Hrun) |].
    split; [rewrite Hi, <- app_assoc; reflexivity |].
    split; [intros ->; apply (ranges_not_nil w); symmetry; exact Hn |].
    split; [| split; [rewrite (edits_all new Hf); exact Hn | exact Hp]].
    apply (Forall_impl _ (P := fun c => isReplaceRange c = true));
      [| exact Hf].
    intros [| |]; cbn; congruence.
  - eexists. eexists. split; [reflexivity |].
    unfold Host.setCursor, Host.replaceRange. cbn. rewrite <- !app_assoc.
    split; [reflexivity |]. split; [discriminate |].
    split; [repeat constructor |]. split; reflexivity.
Qed.

(** What [handleKeypress] sends, with the cursor on a line of the
    document: it returns, and either it has sent nothing, or
    [preventDefault] and then commands for the editor only. *)
Lemma handleKeypress_sends (event : Event) (w : world) (L : jsstring) :
  let char := fromCharCode (charCode event) in
  let nextChar := charAt L (Pos.ch (cursor w)) in
  Host.getLine (Pos.line (cursor w)) w = Some L ->
  exists w' new,
    run (handleKeypress event) w = Some w'
    /\ issued w' = issued w ++ new
    /\ ((new = [] /\ untouched w w')
        \/ (defaultPrevented w' = true
            /\ exists rest,
                 new = PreventDefault :: rest /\ rest <> []
                 /\ Forall (fun c => toEditor c = true) rest))
    /\ edits new = (if insertsPair char nextChar
                    then if Host.somethingSelected w
                         then List.length (ranges w) else 1%nat
                    else 0%nat).
Proof.
  intros char nextChar HL. subst nextChar. unfold insertsPair.
  unfold run, handleKeypress. fold char. clearbody char. cbv zeta.
  set (w1 := mkWorld (doc w) (selBefore w) (primary w) (selAfter w)
               (indentUnit w) (defaultPrevented w) (issued w)
               (lookups w ++ [char])).
  destruct (autocomplete_sends char (getCloseBracket char) (cursor w) w1)
    as (wa & rest & Ha & Hi & Hne & Hf & He & Hp).
  change (issued w1) with (issued w) in Hi.
  rewrite (somethingSelected_ranges w w1) in He by reflexivity.
  change (ranges w1) with (ranges w) in He.
  assert (Hauto :
    exists w' new,
      run (autocomplete char (getCloseBracket char) (cursor w)) w1 = Some w'
      /\ issued w' = issued w ++ new
      /\ ((new = [] /\ untouched w w')
          \/ (defaultPrevented w' = true
              /\ exists rest,
                   new = PreventDefault :: rest /\ rest <> []
                   /\ Forall (fun c => toEditor c = true) rest))
      /\ edits new = (if Host.somethingSelected w
                      then List.length (ranges w) else 1%nat)).
  { exists wa, (PreventDefault :: rest).
    split; [exact Ha |]. split; [exact Hi |].
    split; [right; split; [exact Hp |]; exists rest; repeat split; assumption |].
    exact He. }
  clear wa rest Ha Hi Hne Hf He Hp.
  destruct (isOpenBracket char), (isCloseBracket char);
    cbn [negb andb Bool.eqb].
  4:{ exists w, []. rewrite app_nil_r. split; [reflexivity |].
      split; [reflexivity |]. split; [| reflexivity].
      left. repeat split. }
  all: step; rewrite HL; cbn;
    destruct (eqb char (charAt L (Pos.ch (cursor w)))); cbn [negb andb];
    try exact Hauto.
  - eexists. eexists. split; [reflexivity |].
    unfold Host.setCursor. cbn. rewrite <- app_assoc.
    split; [reflexivity |]. split; [| reflexivity].
    right. split; [reflexivity |]. eexists.
    split; [reflexivity |]. split; [discriminate | repeat constructor].
  - eexists. eexists. split; [reflexivity |].
    unfold Host.setCursor. cbn. rewrite <- app_assoc.
    split; [reflexivity |]. split; [| reflexivity].
    right. split; [reflexivity |]. eexists.
    split; [reflexivity |]. split; [discriminate | repeat constructor].
  - exists w1, []. rewrite app_nil_r. split; [reflexivity |].
    split; [reflexivity |]. split; [| reflexivity].
    left. repeat split.
Qed.


(** ** Wrapping a selection *)

Lemma appendLast_snoc (ls : list jsstring) (z Q : jsstring) :
  Host.appendLast (ls ++ [z]) Q = ls ++ [z ++ Q].
Proof.
  induction ls as [|l ls IH]; [reflexivity |].
  cbn [app Host.appendLast]. rewrite IH.
  destruct ls; reflexivity.
Qed.

Lemma embed_single (P r Q : jsstring) : embed P [r] Q = [P ++ r ++ Q].
Proof. reflexivity. Qed.

Lemma embed_multi (P r : jsstring) (mid : list jsstring) (z Q : jsstring) :
  embed P (r :: mid ++ [z]) Q = (P ++ r) :: mid ++ [z ++ Q].
Proof.
  unfold embed. change (r :: mid ++ [z]) with ((r :: mid) ++ [z]).
  rewrite appendLast_snoc. reflexivity.
Qed.

Lemma rows_shape (rs : list jsstring) :
  rs = [] \/ exists mid z, rs = mid ++ [z].
Proof.
  destruct rs as [|r rs]; [left; reflexivity | right].
  destruct (exists_last (l := r :: rs)) as (mid & z & E); [discriminate |].
  exists mid, z. exact E.
Qed.

(** The lines of a wrapped text: the opener before the first row, the
    closer behind the last. *)
Lemma splitLines_embed (c x : jsstring) (rows : list jsstring) :
  noEOL c -> noEOL x -> Forall noEOL rows -> rows <> [] ->
  splitLines (c ++ join [LF] rows ++ x) = embed c rows x.
Proof.
  intros Hc Hx Hrows. revert c Hc.
  induction Hrows as [|r rs Hr Hrs IH]; intros c Hc Hne; [congruence |].
  destruct rs as [|r2 rs].
  - cbn [join]. rewrite embed_single. apply splitLines_noEOL.
    repeat (apply Forall_app; split); assumption.
  - change (join [LF] (r :: r2 :: rs)) with (r ++ LF :: join [LF] (r2 :: rs)).
    replace (c ++ (r ++ LF :: join [LF] (r2 :: rs)) ++ x)
      with ((c ++ r) ++ LF :: ([] ++ join [LF] (r2 :: rs) ++ x))
      by (cbn [app]; rewrite <- !app_assoc; reflexivity).
    rewrite splitLines_app_LF by (apply Forall_app; split; assumption).
    rewrite IH by (try constructor; discriminate).
    unfold embed. cbn [Host.appendLast Host.prependFirst].
    destruct rs; reflexivity.
Qed.

Lemma lineText_app (A B : list jsstring) (k : nat) :
  Host.lineText (A ++ B) (Z.of_nat (List.length A) + Z.of_nat k) = nth k B [].
Proof.
  unfold Host.lineText.
  replace (Z.to_nat (Z.of_nat (List.length A) + Z.of_nat k))
    with (List.length A + k)%nat by lia.
  rewrite app_nth2_plus. reflexivity.
Qed.

Lemma firstn_app_Z (A B : list jsstring) :
  firstn (Z.to_nat (Z.of_nat (List.length A))) (A ++ B) = A.
Proof.
  rewrite Nat2Z.id, firstn_app, Nat.sub_diag, firstn_all.
  cbn [firstn]. apply app_nil_r.
Qed.

Lemma skipn_app_Z (A B C : list jsstring) (n : Z) :
  n = Z.of_nat (List.length A + List.length B) ->
  skipn (Z.to_nat n) (A ++ B ++ C) = C.
Proof.
  intros ->. rewrite Nat2Z.id, app_assoc, skipn_app.
  rewrite <- length_app, skipn_all, Nat.sub_diag. reflexivity.
Qed.

Lemma slice_app_prefix (X Y : jsstring) :
  slice (X ++ Y) 0 (Some (JS.length X)) = X.
Proof.
  rewrite slice_prefix.
  - unfold JS.length. rewrite Nat2Z.id, firstn_app, Nat.sub_diag, firstn_all.
    cbn [firstn]. apply app_nil_r.
  - unfold JS.length. rewrite length_app. lia.
Qed.

Lemma slice_app_suffix (X Y : jsstring) :
  slice (X ++ Y) (JS.length X) None = Y.
Proof.
  rewrite slice_suffix.
  - unfold JS.length. rewrite Nat2Z.id, skipn_app, skipn_all, Nat.sub_diag.
    reflexivity.
  - unfold JS.length. rewrite length_app. lia.
Qed.

Lemma map_nth_seq (l : list jsstring) (s : nat) :
  map (fun k => nth (k - s) l []) (seq s (List.length l)) = l.
Proof.
  revert s. induction l as [|x l IH]; intros s; [reflexivity |].
  cbn [List.length seq map]. rewrite Nat.sub_diag. cbn [nth]. f_equal.
  rewrite <- (IH (S s)) at 2. apply map_ext_in. intros k Hk.
  apply in_seq in Hk. replace (k - s)%nat with (S (k - S s)) by lia.
  reflexivity.
Qed.

Lemma lineNumbers_nat (first : Z) (n : nat) :
  Host.lineNumbers first (Z.of_nat n)
  = map (fun k => first + Z.of_nat k) (seq 0 n).
Proof. unfold Host.lineNumbers. rewrite Nat2Z.id. reflexivity. Qed.

(** The text between the ends of a selection on one line. *)
Lemma getBetween_single (A C : list jsstring) (P Q r : jsstring) :
  let first := Z.of_nat (List.length A) in
  Host.getBetween (A ++ [P ++ r ++ Q] ++ C)
    (Pos.mk first (JS.length P)) (Pos.mk first (JS.length P + JS.length r))
  = [r].
Proof.
  intros first. unfold Host.getBetween. cbn [Pos.line Pos.ch].
  replace (first + 1 - first) with (Z.of_nat 1) by lia.
  rewrite lineNumbers_nat. cbn [seq map].
  rewrite Z.add_0_r, Z.eqb_refl.
  replace first with (first + Z.of_nat 0) at 1 by lia.
  unfold first at 1. rewrite lineText_app. cbn [nth app].
  replace (JS.length P + JS.length r) with (JS.length (P ++ r))
    by (unfold JS.length; rewrite length_app; lia).
  rewrite app_assoc, slice_app_prefix, slice_app_suffix. reflexivity.
Qed.

(** The text between the ends of a selection over several lines. *)
Lemma getBetween_multi
  (A C : list jsstring) (P Q r : jsstring) (mid : list jsstring)
  (z : jsstring) :
  let first := Z.of_nat (List.length A) in
  Host.getBetween (A ++ ((P ++ r) :: mid ++ [z ++ Q]) ++ C)
    (Pos.mk first (JS.length P))
    (Pos.mk (first + Z.of_nat (List.length mid) + 1) (JS.length z))
  = r :: mid ++ [z].
Proof.
  intros first. unfold Host.getBetween. cbn [Pos.line Pos.ch].
  replace (first + Z.of_nat (List.length mid) + 1 + 1 - first)
    with (Z.of_nat (S (List.length mid + 1))) by lia.
  rewrite lineNumbers_nat, map_map.
  cbn [seq map]. rewrite seq_app, map_app. cbn [seq map].
  set (d := A ++ ((P ++ r) :: mid ++ [z ++ Q]) ++ C).
  f_equal; [| f_equal].
  - rewrite Z.add_0_r, Z.eqb_refl.
    destruct (Z.eqb_spec first (first + Z.of_nat (List.length mid) + 1));
      [lia |].
    replace first with (first + Z.of_nat 0) at 1 by lia.
    unfold first at 1, d. rewrite lineText_app. cbn [nth app].
    apply slice_app_suffix.
  - rewrite <- (map_nth_seq mid 1) at 2. apply map_ext_in. intros k Hk.
    apply in_seq in Hk.
    destruct (Z.eqb_spec (first + Z.of_nat k)
                (first + Z.of_nat (List.length mid) + 1)); [lia |].
    destruct (Z.eqb_spec (first + Z.of_nat k) first); [lia |].
    unfold first, d. rewrite lineText_app.
    destruct k as [|k]; [lia |]. cbn [nth app].
    rewrite <- app_assoc, app_nth1 by lia.
    replace (S k - 1)%nat with k by lia. reflexivity.
  - replace (first + Z.of_nat (1 + List.length mid))
      with (first + Z.of_nat (List.length mid) + 1) by lia.
    rewrite Z.eqb_refl.
    destruct (Z.eqb_spec (first + Z.of_nat (List.length mid) + 1) first);
      [lia |].
    replace (first + Z.of_nat (List.length mid) + 1)
      with (first + Z.of_nat (S (List.length mid))) by lia.
    unfold first, d. rewrite lineText_app. cbn [nth app].
    rewrite <- app_assoc, app_nth2, Nat.sub_diag by lia. cbn [nth app].
    rewrite slice_app_prefix. reflexivity.
Qed.

Lemma updateDoc_single
  (A C : list jsstring) (P Q r : jsstring) (rows' : list jsstring) :
  let first := Z.of_nat (List.length A) in
  Host.updateDoc (A ++ [P ++ r ++ Q] ++ C)
    (mkChange (Pos.mk first (JS.length P))
              (Pos.mk first (JS.length P + JS.length r)) rows')
  = A ++ embed P rows' Q ++ C.
Proof.
  intros first. unfold Host.updateDoc, embed. cbn [from to text Pos.line Pos.ch].
  unfold first. rewrite firstn_app_Z.
  rewrite (skipn_app_Z A [P ++ r ++ Q] C) by (cbn [List.length]; lia).
  replace (Z.of_nat (List.length A))
    with (Z.of_nat (List.length A) + Z.of_nat 0) at 1 2 by lia.
  rewrite !lineText_app. cbn [nth app].
  rewrite slice_app_prefix.
  replace (JS.length P + JS.length r) with (JS.length (P ++ r))
    by (unfold JS.length; rewrite length_app; lia).
  rewrite (app_assoc P r Q), slice_app_suffix. reflexivity.
Qed.

Lemma updateDoc_multi
  (A C : list jsstring) (P Q r : jsstring) (mid : list jsstring)
  (z : jsstring) (rows' : list jsstring) :
  let first := Z.of_nat (List.length A) in
  Host.updateDoc (A ++ ((P ++ r) :: mid ++ [z ++ Q]) ++ C)
    (mkChange (Pos.mk first (JS.length P))
              (Pos.mk (first + Z.of_nat (List.length mid) + 1) (JS.length z))
              rows')
  = A ++ embed P rows' Q ++ C.
Proof.
  intros first. unfold Host.updateDoc, embed. cbn [from to text Pos.line Pos.ch].
  unfold first. rewrite firstn_app_Z.
  rewrite (skipn_app_Z A ((P ++ r) :: mid ++ [z ++ Q]) C)
    by (cbn [List.length]; rewrite length_app; cbn [List.length]; lia).
  replace (Z.of_nat (List.length A))
    with (Z.of_nat (List.length A) + Z.of_nat 0) at 1 by lia.
  replace (Z.of_nat (List.length A) + Z.of_nat (List.length mid) + 1)
    with (Z.of_nat (List.length A) + Z.of_nat (S (List.length mid))) by lia.
  rewrite !lineText_app. cbn [nth app].
  rewrite <- app_assoc, app_nth2, Nat.sub_diag by lia. cbn [nth app].
  rewrite slice_app_prefix, slice_app_suffix. reflexivity.
Qed.

Lemma charAt_app (X Q : jsstring) :
  charAt (X ++ Q) (JS.length X) = charAt Q 0.
Proof.
  unfold charAt, JS.length.
  destruct (Z.ltb_spec (Z.of_nat (List.length X)) 0); [lia |].
  rewrite Nat2Z.id, nth_error_app2, Nat.sub_diag by lia. reflexivity.
Qed.

(** What the editor knows of a document [A ++ embed P rows Q ++ C] and of
    the two ends of [rows] in it. *)
Lemma selection_in_doc
  (A C : list jsstring) (P Q r : jsstring) (rs : list jsstring) :
  let first := Z.of_nat (List.length A) in
  let rows := r :: rs in
  let d := A ++ embed P rows Q ++ C in
  let a := Pos.mk first (JS.length P) in
  let h := endOfRows first P rows in
  Host.clipPos d a = a
  /\ Host.clipPos d h = h
  /\ 0 <= Pos.cmp h a
  /\ Host.getBetween d a h = rows
  /\ (forall rows', Host.updateDoc d (mkChange a h rows')
                    = A ++ embed P rows' Q ++ C)
  /\ (exists X, 0 <= Pos.line h < Z.of_nat (List.length d)
                /\ Host.lineText d (Pos.line h) = X ++ Q
                /\ JS.length X = Pos.ch h)
  /\ (join [LF] rows <> [] -> Pos.eqb h a = false).
Proof.
  intros first rows d a h.
  destruct (rows_shape rs) as [E | (mid & z & E)]; subst rs.
  - (* one line *)
    subst rows d a h. rewrite embed_single. unfold endOfRows.
    cbn [List.length last].
    replace (first + Z.of_nat 1 - 1) with first by lia.
    assert (HL : Host.lineText (A ++ [P ++ r ++ Q] ++ C) first = P ++ r ++ Q).
    { replace first with (first + Z.of_nat 0) by lia.
      unfold first. rewrite lineText_app. reflexivity. }
    assert (Hlen : 0 <= first < Z.of_nat (List.length (A ++ [P ++ r ++ Q] ++ C))).
    { rewrite length_app. cbn [app List.length]. lia. }
    split; [| split; [| split; [| split; [| split; [| split]]]]].
    + apply clipPos_inside; [assumption |]. rewrite HL.
      unfold JS.length. rewrite !length_app. lia.
    + apply clipPos_inside; [assumption |]. rewrite HL.
      unfold JS.length. rewrite !length_app. lia.
    + unfold Pos.cmp. cbn [Pos.line Pos.ch]. rewrite Z.eqb_refl.
      unfold JS.length. lia.
    + apply getBetween_single.
    + intros rows'. apply updateDoc_single.
    + exists (P ++ r). cbn [Pos.line Pos.ch]. rewrite HL, <- app_assoc.
      repeat split; try lia. unfold JS.length. rewrite length_app. lia.
    + cbn [join]. intros Hr. unfold Pos.eqb. cbn [Pos.line Pos.ch].
      rewrite Z.eqb_refl. cbn [andb]. apply Z.eqb_neq.
      destruct r; [congruence |]. unfold JS.length. cbn [List.length]. lia.
  - (* several lines *)
    subst rows d a h. rewrite embed_multi. unfold endOfRows.
    assert (Hm : match mid ++ [z] with
                 | [] => JS.length P + JS.length r
                 | _ :: _ => JS.length (last (r :: mid ++ [z]) [])
                 end = JS.length z).
    { change (r :: mid ++ [z]) with ((r :: mid) ++ [z]). rewrite last_last.
      destruct mid; reflexivity. }
    cbv beta iota. rewrite Hm. clear Hm.
    change (r :: mid ++ [z]) with ((r :: mid) ++ [z]).
    rewrite length_app. cbn [List.length].
    replace (first + Z.of_nat (S (List.length mid) + 1) - 1)
      with (first + Z.of_nat (List.length mid) + 1) by lia.
    set (d := A ++ ((P ++ r) :: mid ++ [z ++ Q]) ++ C).
    assert (Hd : List.length d
                 = (List.length A + (S (S (List.length mid)) + List.length C))%nat).
    { unfold d. rewrite !length_app. cbn [List.length].
      rewrite length_app. cbn [List.length]. lia. }
    assert (HLa : Host.lineText d first = P ++ r).
    { replace first with (first + Z.of_nat 0) by lia.
      unfold first, d. rewrite lineText_app. reflexivity. }
    assert (HLh : Host.lineText d (first + Z.of_nat (List.length mid) + 1)
                  = z ++ Q).
    { replace (first + Z.of_nat (List.length mid) + 1)
        with (first + Z.of_nat (S (List.length mid))) by lia.
      unfold first, d. rewrite lineText_app. cbn [nth app].
      rewrite <- app_assoc, app_nth2, Nat.sub_diag by lia. reflexivity. }
    split; [| split; [| split; [| split; [| split; [| split]]]]].
    + apply clipPos_inside; [lia |]. rewrite HLa.
      unfold JS.length. rewrite !length_app. lia.
    + apply clipPos_inside; [lia |]. rewrite HLh.
      unfold JS.length. rewrite !length_app. lia.
    + unfold Pos.cmp. cbn [Pos.line Pos.ch].
      destruct (Z.eqb_spec (first + Z.of_nat (List.length mid) + 1) first); lia.
    + apply getBetween_multi.
    + intros rows'. apply updateDoc_multi.
    + exists z. cbn [Pos.line Pos.ch]. rewrite HLh. repeat split; lia.
    + intros _. unfold Pos.eqb. cbn [Pos.line Pos.ch].
      destruct (Z.eqb_spec (first + Z.of_nat (List.length mid) + 1) first);
        [lia | reflexivity].
Qed.

Lemma changeEnd_endOfRows (first : Z) (P : jsstring) (t : Pos.t)
  (rows' : list jsstring) :
  rows' <> [] ->
  Host.changeEnd (mkChange (Pos.mk first (JS.length P)) t rows')
  = endOfRows first P rows'.
Proof.
  intros Hne. unfold Host.changeEnd, endOfRows. cbn [from text Pos.line Pos.ch].
  destruct rows' as [|r1 [|r2 rest]]; [congruence | |].
  - cbn. f_equal. unfold JS.length. lia.
  - f_equal. destruct (Z.eqb_spec (Z.of_nat (List.length (r1 :: r2 :: rest))) 1).
    + cbn [List.length] in *. lia.
    + lia.
Qed.

Lemma cmp_refl (p : Pos.t) : Pos.cmp p p = 0.
Proof. unfold Pos.cmp. rewrite Z.eqb_refl. lia. Qed.

Lemma cmp_antisym (p q : Pos.t) : Pos.cmp p q = - Pos.cmp q p.
Proof.
  unfold Pos.cmp. rewrite (Z.eqb_sym (Pos.line q)).
  destruct (Pos.line p =? Pos.line q); lia.
Qed.

Lemma adjustForChange_inside (p : Pos.t) (c : change) :
  0 <= Pos.cmp p (from c) -> Pos.cmp p (to c) <= 0 ->
  Host.adjustForChange p c = Host.changeEnd c.
Proof.
  intros H1 H2. unfold Host.adjustForChange.
  destruct (Z.ltb_spec (Pos.cmp p (from c)) 0); [lia |].
  destruct (Z.leb_spec (Pos.cmp p (to c)) 0); [reflexivity | lia].
Qed.

(** X13: with one selection, whose anchor stands before its head, typing
    an opener, a quote not with the head right before the same quote, sends
    one [replaceRange] that puts the opener, the selected text and the
    closer in the place of the selection.  The handler sets no selection
    afterwards, and the editor leaves the cursor right behind the closer,
    with nothing selected. *)
Theorem keypress_wraps_selection
  (event : Event) (w : world) (A C : list jsstring) (P Q r : jsstring)
  (rs : list jsstring) :
  let char := fromCharCode (charCode event) in
  let first := Z.of_nat (List.length A) in
  let rows := r :: rs in
  let T := join [LF] rows in
  let a := Pos.mk first (JS.length P) in
  let h := endOfRows first P rows in
  doc w = A ++ embed P rows Q ++ C ->
  Forall noEOL rows ->
  selBefore w = [] -> primary w = mkRange a h -> selAfter w = [] ->
  T <> [] ->
  isOpenBracket char = true ->
  isCloseBracket char = false \/ charAt Q 0 <> char ->
  exists close,
    getCloseBracket char = Some close
    /\ Host.getRange a h w = T
    /\ run (handleKeypress event) w
       = Some (mkWorld
                 (A ++ embed P (embed char rows close) Q ++ C)
                 [] (cursorAt (endOfRows first P (embed char rows close))) []
                 (indentUnit w) true
                 (issued w ++ [PreventDefault;
                               ReplaceRange (char ++ T ++ close) a h])
                 (lookups w ++ [char])).
Proof.
  intros char first rows T a h Hdoc Hrows Hsb Hprim Hsa HT Hopen Hnext.
  destruct (selection_in_doc A C P Q r rs)
    as (Hca & Hch & Hcmp & Hgb & Hupd & (X & Hlh & HLh & HX) & Hne).
  fold first rows a h in Hca, Hch, Hcmp, Hgb, Hupd, Hlh, HLh, HX, Hne.
  fold T in Hne. specialize (Hne HT).
  destruct (getCloseBracket_opener _ Hopen) as (o & x & Ho & Hx & _ & Eo & Ex).
  exists [x]. split; [assumption |].
  assert (Hrange : forall w1, doc w1 = doc w -> Host.getRange a h w1 = T).
  { intros w1 Hd. unfold Host.getRange. rewrite Hd, Hdoc, Hca, Hch, Hgb.
    reflexivity. }
  split; [apply Hrange; reflexivity |].
  set (rows' := embed char rows [x]).
  assert (Hsplit : splitLines (char ++ T ++ [x]) = rows').
  { apply splitLines_embed; try assumption; [congruence | discriminate]. }
  assert (Hrows' : rows' <> []).
  { unfold rows', embed, rows. cbn [Host.appendLast].
    destruct rs; discriminate. }
  set (c := mkChange a h rows').
  assert (Hend : Host.changeEnd c = endOfRows first P rows')
    by (apply changeEnd_endOfRows; assumption).
  assert (Hreplace : forall w1, doc w1 = doc w ->
            Host.replaceRange (char ++ T ++ [x]) a h w1 = Host.makeChange c w1).
  { intros w1 Hd. unfold Host.replaceRange. rewrite Hd, Hdoc, Hca, Hch, Hsplit.
    destruct (Z.ltb_spec (Pos.cmp h a) 0); [lia | reflexivity]. }
  assert (Hadj : Host.adjustRange c (mkRange a h)
                 = cursorAt (endOfRows first P rows')).
  { unfold Host.adjustRange, cursorAt. cbn [anchor head].
    rewrite !adjustForChange_inside, Hend; cbn [from to c];
      rewrite ?cmp_refl, ?(cmp_antisym a h); try lia. reflexivity. }
  assert (Hmk : forall w1,
            doc w1 = doc w -> selBefore w1 = [] ->
            primary w1 = mkRange a h -> selAfter w1 = [] ->
            Host.makeChange c w1
            = mkWorld (A ++ embed P rows' Q ++ C) []
                      (cursorAt (endOfRows first P rows')) []
                      (indentUnit w1) (defaultPrevented w1) (issued w1)
                      (lookups w1)).
  { intros w1 Hd H1 H2 H3. unfold Host.makeChange.
    rewrite H1, H2, H3, Hadj, Hd, Hdoc. unfold c. rewrite Hupd. reflexivity. }
  assert (Hsel : Host.somethingSelected w = true).
  { unfold Host.somethingSelected, ranges. rewrite Hsb, Hprim, Hsa.
    cbn [app existsb]. unfold Host.rangeEmpty. cbn [anchor head].
    rewrite Hne. reflexivity. }
  assert (HL : Host.getLine (Pos.line h) w = Some (X ++ Q)).
  { unfold Host.getLine. rewrite Hdoc, HLh.
    destruct (Z.leb_spec 0 (Pos.line h)); [| lia].
    destruct (Z.ltb_spec (Pos.line h)
                (Z.of_nat (List.length (A ++ embed P rows Q ++ C))));
      [reflexivity | lia]. }
  assert (Hcursor : cursor w = h) by (unfold cursor; rewrite Hprim; reflexivity).
  assert (Hnc : charAt (X ++ Q) (Pos.ch h) = charAt Q 0)
    by (rewrite <- HX; apply charAt_app).
  assert (Hauto : eqb char (charAt Q 0) = false \/ isCloseBracket char = false).
  { destruct Hnext as [H | H]; [right; assumption | left].
    apply eqb_neq. congruence. }
  unfold run, handleKeypress. fold char. clearbody char. rewrite Hopen.
  clearbody T rows' c a h.
  assert (Hgoal :
    option_map snd
      ((preventDefault ;;
        selected <- cm.somethingSelected ;;
        if selected then
          selections <- cm.listSelections ;;
          forEach selections (fun selection =>
            text <- cm.getRange (anchor selection) (head selection) ;;
            cm.replaceRange (char ++ text ++ toString (Some [x]))
                            (anchor selection) (Some (head selection)))
        else
          cm.replaceRange (char ++ toString (Some [x])) h None ;;
          cm.setCursor (Pos.mk (Pos.line h) (Pos.ch h + 1)))
         (mkWorld (doc w) (selBefore w) (primary w) (selAfter w)
                  (indentUnit w) (defaultPrevented w) (issued w)
                  (lookups w ++ [char])))
    = Some (mkWorld
              (A ++ embed P rows' Q ++ C)
              [] (cursorAt (endOfRows first P rows')) []
              (indentUnit w) true
              (issued w ++ [PreventDefault;
                            ReplaceRange (char ++ T ++ [x]) a h])
              (lookups w ++ [char]))).
  { step.
    rewrite (somethingSelected_ranges w) by reflexivity.
    rewrite Hsel. unfold ranges. cbn [selBefore primary selAfter].
    rewrite Hsb, Hprim, Hsa. cbn [app forEach anchor head].
    step. rewrite Hrange, Hreplace, Hmk by reflexivity.
    cbn. rewrite <- !app_assoc. reflexivity. }
  step. rewrite Hcursor, HL. cbn. rewrite Hx, Hnc.
  destruct (isCloseBracket char); cbn.
  - destruct Hauto as [E | E]; [| discriminate]. rewrite E. exact Hgoal.
  - exact Hgoal.
Qed.

(** ** Examples *)

Lemma backspace_at_column_0_witness :
  Pos.ch (cursor (editing [lit "()"] 0 0 2)) = 0
  /\ Host.getLine 0 (editing [lit "()"] 0 0 2) = Some (lit "()")
  /\ handleBackspace (keydown "Backspace") (editing [lit "()"] 0 0 2)
     = Some (tt, editing [lit "()"] 0 0 2).
Proof.
  split; [reflexivity |]. split; [reflexivity |].
  apply (backspace_at_column_0 (keydown "Backspace")
           (editing [lit "()"] 0 0 2) (lit "()")); reflexivity.
Defined.

(** The line "a(|)b" becomes "a|b". *)
Lemma backspace_between_pair_witness :
  Host.getLine 0 (editing [lit "a()b"] 0 2 2) = Some (lit "a()b")
  /\ exists w',
       run (handleBackspace (keydown "Backspace")) (editing [lit "a()b"] 0 2 2)
       = Some w'
       /\ doc w' = [lit "ab"]
       /\ cursor w' = Pos.mk 0 1
       /\ issued w' = [PreventDefault;
                       ReplaceRange [] (Pos.mk 0 1) (Pos.mk 0 3)].
Proof.
  split; [reflexivity |].
  pose proof (backspace_between_pair (keydown "Backspace")
                (editing [lit "a()b"] 0 2 2) (lit "a()b") eq_refl) as H.
  cbv zeta in H. destruct H as [H _].
  destruct (H eq_refl eq_refl eq_refl)
    as (w' & Hrun & Hdoc & _ & Hcur & _ & _ & Hi).
  exists w'. split; [exact Hrun |]. split; [exact Hdoc |].
  split; [exact Hcur | exact Hi].
Defined.

Lemma typing_through_closer_witness :
  Host.getLine 0 (editing [lit "()"] 0 1 2) = Some (lit "()")
  /\ isCloseBracket (fromCharCode 41) = true
  /\ charAt (lit "()") 1 = fromCharCode 41
  /\ run (handleKeypress (keypress 41)) (editing [lit "()"] 0 1 2)
     = Some (mkWorld [lit "()"] [] (cursorAt (Pos.mk 0 2)) [] 2 true
                     [PreventDefault; SetCursor (Pos.mk 0 2)] [lit ")"]).
Proof.
  split; [reflexivity |]. split; [reflexivity |]. split; [reflexivity |].
  exact (typing_through_closer (keypress 41) (editing [lit "()"] 0 1 2)
           (lit "()") eq_refl eq_refl eq_refl).
Defined.



Lemma keypress_opener_inserts_pair_witness :
  Host.getLine 0 (editing [lit "ab"] 0 1 2) = Some (lit "ab")
  /\ Host.somethingSelected (editing [lit "ab"] 0 1 2) = false
  /\ isOpenBracket (fromCharCode 40) = true
  /\ run (handleKeypress (keypress 40)) (editing [lit "ab"] 0 1 2)
     = Some (mkWorld [lit "a()b"] [] (cursorAt (Pos.mk 0 2)) [] 2 true
                     [PreventDefault;
                      ReplaceRange (lit "()") (Pos.mk 0 1) (Pos.mk 0 1);
                      SetCursor (Pos.mk 0 2)]
                     [lit "("]).
Proof.
  split; [reflexivity |]. split; [reflexivity |]. split; [reflexivity |].
  destruct (keypress_opener_inserts_pair (keypress 40)
              (editing [lit "ab"] 0 1 2) (lit "ab") eq_refl
              ltac:(vm_compute; split; discriminate) eq_refl eq_refl
              (or_introl eq_refl))
    as (close & Hclose & Hrun).
  injection Hclose as <-. exact Hrun.
Defined.

(** C1 as stated fails: between the two quotes of "''" a typed quote
    inserts nothing, the cursor steps over the second quote. *)
Lemma quote_before_quote_inserts_nothing :
  isOpenBracket (fromCharCode 39) = true
  /\ Host.somethingSelected (editing [lit "''"] 0 1 2) = false
  /\ run (handleKeypress (keypress 39)) (editing [lit "''"] 0 1 2)
     = Some (mkWorld [lit "''"] [] (cursorAt (Pos.mk 0 2)) [] 2 true
                     [PreventDefault; SetCursor (Pos.mk 0 2)] [lit "'"])
  /\ [lit "''"] <> [lit "''''"].
Proof. vm_compute. repeat split. discriminate. Qed.

(** The selection from (0, 1) to (2, 1) of "ab", "cd", "ef". *)
Lemma keypress_wraps_selection_witness :
  isOpenBracket (fromCharCode 40) = true
  /\ run (handleKeypress (keypress 40))
         (mkWorld [lit "ab"; lit "cd"; lit "ef"] [] (span 0 1 2 1) [] 2
                  false [] [])
     = Some (mkWorld [lit "a(b"; lit "cd"; lit "e)f"] []
                     (cursorAt (Pos.mk 2 2)) [] 2 true
                     [PreventDefault;
                      ReplaceRange
                        (lit "(b" ++ [LF] ++ lit "cd" ++ [LF] ++ lit "e)")
                        (Pos.mk 0 1) (Pos.mk 2 1)]
                     [lit "("]).
Proof.
  split; [reflexivity |].
  destruct (keypress_wraps_selection (keypress 40)
              (mkWorld [lit "ab"; lit "cd"; lit "ef"] [] (span 0 1 2 1) [] 2
                       false [] [])
              [] [] (lit "a") (lit "f") (lit "b") [lit "cd"; lit "e"]
              eq_refl
              ltac:(repeat constructor; discriminate)
              eq_refl eq_refl eq_refl
              ltac:(discriminate) eq_refl (or_introl eq_refl))
    as (close & Hclose & _ & Hrun).
  injection Hclose as <-. exact Hrun.
Defined.

(** C2: with "ab" and "cd" selected on the line "ab cd", typing "(" does
    not wrap "cd": the loop of [autocomplete] goes over the ranges as they
    were before its first edit, so the second [replaceRange] reads and
    replaces the columns 3 to 5 of the line "(ab) cd". *)
Lemma wrapping_two_selections_on_one_line :
  exists w',
    run (handleKeypress (keypress 40))
        (mkWorld [lit "ab cd"] [] (span 0 0 0 2) [span 0 3 0 5] 2 false [] [])
    = Some w'
    /\ doc w' = [lit "(ab() )cd"]
    /\ doc w' <> [lit "(ab) (cd)"]
    /\ issued w' = [PreventDefault;
                    ReplaceRange (lit "(ab)") (Pos.mk 0 0) (Pos.mk 0 2);
                    ReplaceRange (lit "() )") (Pos.mk 0 3) (Pos.mk 0 5)].
Proof.
  eexists. split; [vm_compute; reflexivity |].
  split; [reflexivity |]. split; [discriminate | reflexivity].
Qed.

(** A selection made backwards, its anchor behind its head, reads as the
    empty string and is replaced by the bare pair. *)
Lemma wrapping_backward_selection_drops_text :
  exists w',
    run (handleKeypress (keypress 40))
        (mkWorld [lit "ab cd"] [] (span 0 2 0 0) [] 2 false [] [])
    = Some w'
    /\ doc w' = [lit "() cd"]
    /\ issued w' = [PreventDefault;
                    ReplaceRange (lit "()") (Pos.mk 0 2) (Pos.mk 0 0)].
Proof.
  eexists. split; [vm_compute; reflexivity |]. split; reflexivity.
Qed.

(** The line "  foo(|)" with indent width 2. *)
Lemma enter_splits_into_three_lines_witness :
  Host.getLine 0 (editing [lit "  foo()"] 0 6 2) = Some (lit "  foo()")
  /\ noEOL (lit "  foo()")
  /\ exists w',
       run (handleEnter (keydown "Enter")) (editing [lit "  foo()"] 0 6 2)
       = Some w'
       /\ doc w' = [lit "  foo("; lit "    "; lit "  )"]
       /\ primary w' = cursorAt (Pos.mk 1 4).
Proof.
  assert (HnoEOL : noEOL (lit "  foo()"))
    by (repeat constructor; discriminate).
  split; [reflexivity |]. split; [exact HnoEOL |].
  pose proof (enter_splits_into_three_lines (keydown "Enter")
                (editing [lit "  foo()"] 0 6 2) (lit "  foo()")) as H.
  cbv zeta in H.
  destruct (H eq_refl HnoEOL eq_refl eq_refl)
    as (content & w' & Hpre & Hrun & Hdoc & _ & _ & Hprim & _).
  exists w'. split; [exact Hrun |]. split; [| exact Hprim].
  rewrite <- Hpre in Hdoc. exact Hdoc.
Defined.

Lemma lookup_after_classification_witness :
  run (handleKeypress (keypress 40)) (editing [lit "ab"] 0 1 2)
  = Some (mkWorld [lit "a()b"] [] (cursorAt (Pos.mk 0 2)) [] 2 true
                  [PreventDefault;
                   ReplaceRange (lit "()") (Pos.mk 0 1) (Pos.mk 0 1);
                   SetCursor (Pos.mk 0 2)]
                  [lit "("])
  /\ [lit "("] = [] ++ [fromCharCode 40].
Proof.
  assert (Hrun :
    run (handleKeypress (keypress 40)) (editing [lit "ab"] 0 1 2)
    = Some (mkWorld [lit "a()b"] [] (cursorAt (Pos.mk 0 2)) [] 2 true
                    [PreventDefault;
                     ReplaceRange (lit "()") (Pos.mk 0 1) (Pos.mk 0 1);
                     SetCursor (Pos.mk 0 2)]
                    [lit "("])) by (vm_compute; reflexivity).
  split; [exact Hrun |].
  exact (proj1 (proj1 (lookup_after_classification (keypress 40) _ _) Hrun)).
Defined.

(** C7: typing ")" before ")" makes [handleKeypress] look ")" up in the
    table, where it is no key: its call of [getCloseBracket] comes after a
    test that lets closers through, while [handleBackspace] asks
    [isOpenBracket] first. *)
Lemma closer_is_looked_up :
  run (handleKeypress (keypress 41)) (editing [lit "()"] 0 1 2)
  = Some (mkWorld [lit "()"] [] (cursorAt (Pos.mk 0 2)) [] 2 true
                  [PreventDefault; SetCursor (Pos.mk 0 2)] [lit ")"])
  /\ isOpenBracket (lit ")") = false
  /\ getCloseBracket (lit ")") = None.
Proof. vm_compute. repeat split. Qed.



(** ** The delimiter table as a map *)

Lemma eqb_sym (a b : jsstring) : eqb a b = eqb b a.
Proof.
  destruct (eqb a b) eqn:E.
  - apply eqb_eq in E. subst. symmetry. apply eqb_refl.
  - symmetry. apply eqb_neq. apply eqb_neq in E. congruence.
Qed.

Lemma find_key_None (l : list (jsstring * jsstring)) (c : jsstring) :
  find (fun kv => eqb (fst kv) c) l = None
  <-> includes (map fst l) c = false.
Proof.
  unfold includes. induction l as [|kv l IH]; cbn [find map existsb].
  - split; reflexivity.
  - rewrite (eqb_sym c (fst kv)). destruct (eqb (fst kv) c); cbn [orb].
    + split; discriminate.
    + exact IH.
Qed.

(** X1: for a string of at most one code unit, which is all the handlers
    look up, the lookup in the table is [undefined] exactly when the string
    is no opener; for an opener it gives a string that is a closer, the one
    the table pairs it with.  (Longer strings are left out: a plain object
    also answers to the names it inherits, such as [constructor].) *)
Theorem getCloseBracket_defined_on_openers (c : jsstring) :
  JS.length c <= 1 ->
  (getCloseBracket c = None <-> isOpenBracket c = false)
  /\ (forall x, getCloseBracket c = Some x ->
        isOpenBracket c = true /\ isCloseBracket x = true
        /\ In (c, x) brackets).
Proof.
  intros _.
  unfold getCloseBracket, isOpenBracket, isCloseBracket. split.
  - rewrite <- find_key_None.
    destruct (find (fun kv => eqb (fst kv) c) brackets); cbn [option_map];
      split; congruence.
  - intros x Hx.
    destruct (find (fun kv => eqb (fst kv) c) brackets) as [kv|] eqn:E;
      [| discriminate].
    injection Hx as <-. apply find_some in E as [Hin Hk].
    apply eqb_eq in Hk. subst c. split; [| split].
    + apply includes_In. apply in_map. exact Hin.
    + apply includes_In. apply in_map. exact Hin.
    + destruct kv. exact Hin.
Qed.



(** ** Switching the option on and off *)

Lemma registered_on (type type' : jsstring) (f f' : listener)
  (hs : Emitter.t) :
  Emitter.registered type f (Emitter.on type' f' hs)
  = (Emitter.registered type f hs
     + (if Emitter.same type f (type', f') then 1 else 0))%nat.
Proof.
  unfold Emitter.registered, Emitter.on.
  rewrite filter_app, length_app. cbn [filter].
  destruct (Emitter.same type f (type', f')); reflexivity.
Qed.

Lemma registered_off (type : jsstring) (f : listener) (hs : Emitter.t) :
  Emitter.registered type f (Emitter.off type f hs)
  = Nat.pred (Emitter.registered type f hs).
Proof.
  unfold Emitter.registered.
  induction hs as [|e hs IH]; [reflexivity |].
  cbn [Emitter.off filter]. destruct (Emitter.same type f e) eqn:E.
  - reflexivity.
  - cbn [filter]. rewrite E. exact IH.
Qed.

(** Taking one listener away leaves the registrations of every other one. *)
Lemma filter_off (p : jsstring * listener -> bool) (type : jsstring)
  (f : listener) (hs : Emitter.t) :
  (forall e, Emitter.same type f e = true -> p e = false) ->
  filter p (Emitter.off type f hs) = filter p hs.
Proof.
  intros Hp. induction hs as [|e hs IH]; [reflexivity |].
  cbn [Emitter.off filter]. destruct (Emitter.same type f e) eqn:E.
  - rewrite (Hp e E). reflexivity.
  - cbn [filter]. rewrite IH. reflexivity.
Qed.

Lemma same_exclusive (type type' : jsstring) (f f' : listener)
  (e : jsstring * listener) :
  listener_eqb f f' = false ->
  Emitter.same type f e = true -> Emitter.same type' f' e = false.
Proof.
  unfold Emitter.same. intros Hff H. apply andb_true_iff in H as [_ H].
  destruct (snd e), f, f'; try discriminate; try (apply andb_false_r).
  cbn in *. apply Nat.eqb_eq in H. subst. rewrite Nat.eqb_sym in Hff.
  rewrite Nat.eqb_sym, Hff. apply andb_false_r.
Qed.

Lemma registered_off_other (type type' : jsstring) (f f' : listener)
  (hs : Emitter.t) :
  listener_eqb f f' = false ->
  Emitter.registered type' f' (Emitter.off type f hs)
  = Emitter.registered type' f' hs.
Proof.
  intros Hff. unfold Emitter.registered. rewrite filter_off; [reflexivity |].
  intros e. apply same_exclusive. exact Hff.
Qed.

Lemma smartBrackets_counts (hs : Emitter.t) :
  Emitter.registered (lit "keypress") HandleKeypress (smartBrackets true hs)
  = Nat.max 1 (Emitter.registered (lit "keypress") HandleKeypress hs)
  /\ Emitter.registered (lit "keydown") HandleKeydown (smartBrackets true hs)
     = Nat.max 1 (Emitter.registered (lit "keydown") HandleKeydown hs).
Proof.
  unfold smartBrackets. cbn [negb]. cbv zeta.
  rewrite !registered_on.
  change (Emitter.same (lit "keypress") HandleKeypress
            (lit "keydown", HandleKeydown)) with false.
  change (Emitter.same (lit "keypress") HandleKeypress
            (lit "keypress", HandleKeypress)) with true.
  change (Emitter.same (lit "keydown") HandleKeydown
            (lit "keydown", HandleKeydown)) with true.
  change (Emitter.same (lit "keydown") HandleKeydown
            (lit "keypress", HandleKeypress)) with false.
  rewrite (registered_off_other (lit "keydown") (lit "keypress")
             HandleKeydown HandleKeypress) by reflexivity.
  rewrite !registered_off.
  rewrite (registered_off_other (lit "keypress") (lit "keydown")
             HandleKeypress HandleKeydown) by reflexivity.
  split; lia.
Qed.

(** Switching the option on leaves the registrations of everything but the
    two handlers, in their order. *)
Lemma smartBrackets_others (hs : Emitter.t) :
  others (smartBrackets true hs) = others hs.
Proof.
  unfold others, smartBrackets. cbn [negb]. cbv zeta. unfold Emitter.on.
  rewrite !filter_app. cbn [filter].
  change (Emitter.same (lit "keypress") HandleKeypress
            (lit "keypress", HandleKeypress)) with true.
  change (Emitter.same (lit "keydown") HandleKeydown
            (lit "keydown", HandleKeydown)) with true.
  cbn [negb andb]. rewrite andb_false_r, !app_nil_r.
  rewrite !filter_off; [reflexivity | |].
  - intros e E. rewrite E. reflexivity.
  - intros e E. rewrite E. apply andb_false_r.
Qed.

(** X3: however often the option is switched on, each of the two handlers
    ends up registered once if it was not registered before (and as often
    as before otherwise), so no keystroke is handled twice; the
    registrations of all other listeners stay as they were: the same
    registrations in the same order. *)
Theorem option_on_registers_once (n : nat) (hs : Emitter.t) :
  let hs' := Nat.iter (S n) (smartBrackets true) hs in
  Emitter.registered (lit "keypress") HandleKeypress hs'
  = Nat.max 1 (Emitter.registered (lit "keypress") HandleKeypress hs)
  /\ Emitter.registered (lit "keydown") HandleKeydown hs'
     = Nat.max 1 (Emitter.registered (lit "keydown") HandleKeydown hs)
  /\ others hs' = others hs.
Proof.
  induction n as [|n IH]; cbv zeta.
  - destruct (smartBrackets_counts hs) as [H1 H2].
    split; [exact H1 |]. split; [exact H2 |].
    apply smartBrackets_others.
  - cbv zeta in IH. destruct IH as (I1 & I2 & I3).
    change (Nat.iter (S (S n)) (smartBrackets true) hs)
      with (smartBrackets true (Nat.iter (S n) (smartBrackets true) hs)).
    destruct (smartBrackets_counts (Nat.iter (S n) (smartBrackets true) hs))
      as [H1 H2].
    split; [rewrite H1, I1; lia |]. split; [rewrite H2, I2; lia |].
    rewrite <- I3. apply smartBrackets_others.
Qed.

(** X4: switching the option off takes no listener away: after on and then
    off both handlers are still registered, and the addon goes on handling
    the keys. *)
Theorem option_off_keeps_listeners (hs : Emitter.t) :
  smartBrackets false (smartBrackets true hs) = smartBrackets true hs
  /\ (1 <= Emitter.registered (lit "keypress") HandleKeypress
             (smartBrackets false (smartBrackets true hs)))%nat
  /\ (1 <= Emitter.registered (lit "keydown") HandleKeydown
             (smartBrackets false (smartBrackets true hs)))%nat.
Proof.
  destruct (smartBrackets_counts hs) as [H1 H2].
  change (smartBrackets false (smartBrackets true hs))
    with (smartBrackets true hs).
  split; [reflexivity |]. rewrite H1, H2. split; lia.
Qed.

(** ** One keystroke after another *)

(** An opener that is not a symmetric delimiter typed before itself makes
    [handleKeypress] run [autocomplete]. *)
Lemma keypress_autocompletes (event : Event) (w : world) (L : jsstring) :
  let char := fromCharCode (charCode event) in
  Host.getLine (Pos.line (cursor w)) w = Some L ->
  isOpenBracket char = true ->
  isCloseBracket char = false \/ charAt L (Pos.ch (cursor w)) <> char ->
  run (handleKeypress event) w
  = run (autocomplete char (getCloseBracket char) (cursor w))
        (mkWorld (doc w) (selBefore w) (primary w) (selAfter w)
                 (indentUnit w) (defaultPrevented w) (issued w)
                 (lookups w ++ [char])).
Proof.
  intros char HL Hopen Hnext.
  assert (Hauto : eqb char (charAt L (Pos.ch (cursor w))) = false
                  \/ isCloseBracket char = false).
  { destruct Hnext as [H | H]; [right; assumption | left].
    apply eqb_neq. congruence. }
  unfold run, handleKeypress, autocomplete. fold char. clearbody char.
  rewrite Hopen. step. rewrite HL. cbn.
  destruct (isCloseBracket char); cbn; [| reflexivity].
  destruct Hauto as [E | E]; [| discriminate]. rewrite E. reflexivity.
Qed.

(** [autocomplete] with nothing selected. *)
Lemma autocomplete_inserts (o x : N) (pos : Pos.t) (w : world)
  (L : jsstring) :
  let pos' := Pos.mk (Pos.line pos) (Pos.ch pos + 1) in
  Host.getLine (Pos.line pos) w = Some L ->
  0 <= Pos.ch pos <= JS.length L ->
  Host.somethingSelected w = false ->
  noEOL [o] -> noEOL [x] ->
  run (autocomplete [o] (Some [x]) pos) w
  = Some (mkWorld
            (setLine (doc w) (Pos.line pos)
               (firstn (Z.to_nat (Pos.ch pos)) L ++ [o; x]
                ++ skipn (Z.to_nat (Pos.ch pos)) L))
            [] (cursorAt pos') [] (indentUnit w) true
            (issued w ++ [PreventDefault; ReplaceRange [o; x] pos pos;
                          SetCursor pos'])
            (lookups w)).
Proof.
  intros pos' HL Hch Hsel Ho Hx.
  assert (Hcode : noEOL [o; x]).
  { inversion Ho; inversion Hx; subst. repeat constructor; tauto. }
  assert (Hrun :
    forall w1, ranges w1 = ranges w -> doc w1 = doc w ->
      Host.replaceRange [o; x] pos pos w1
      = Host.makeChange (mkChange pos pos [[o; x]]) w1).
  { intros w1 Hr Hd. rewrite (pos_eta pos) at 1 2.
    rewrite replaceRange_inline with (L := L); try assumption; try lia.
    - rewrite <- pos_eta. reflexivity.
    - unfold Host.getLine in *. rewrite Hd. exact HL. }
  unfold run, autocomplete. step.
  rewrite (somethingSelected_ranges w) by reflexivity.
  rewrite Hsel, Hrun by reflexivity.
  unfold Host.setCursor. simpl.
  apply getLine_Some in HL as [Hl HL].
  rewrite updateDoc_insert by (rewrite HL; lia).
  rewrite HL. fold pos'. unfold pos' at 1 2. rewrite clipPos_inside.
  - rewrite <- !app_assoc. reflexivity.
  - rewrite length_setLine; assumption.
  - rewrite lineText_setLine by assumption.
    unfold JS.length in *. simpl.
    rewrite length_app, length_firstn. cbn [List.length].
    rewrite length_skipn. lia.
Qed.

(** The world after an opener is typed with nothing selected. *)
Lemma keypress_inserts (event : Event) (w : world) (L : jsstring) :
  let char := fromCharCode (charCode event) in
  let pos := cursor w in
  let pos' := Pos.mk (Pos.line pos) (Pos.ch pos + 1) in
  Host.getLine (Pos.line pos) w = Some L ->
  0 <= Pos.ch pos <= JS.length L ->
  Host.somethingSelected w = false ->
  isOpenBracket char = true ->
  isCloseBracket char = false \/ charAt L (Pos.ch pos) <> char ->
  exists o x,
    char = [o] /\ getCloseBracket [o] = Some [x]
    /\ isCloseBracket [x] = true
    /\ run (handleKeypress event) w
       = Some (mkWorld
                 (setLine (doc w) (Pos.line pos)
                    (firstn (Z.to_nat (Pos.ch pos)) L ++ [o; x]
                     ++ skipn (Z.to_nat (Pos.ch pos)) L))
                 [] (cursorAt pos') [] (indentUnit w) true
                 (issued w ++ [PreventDefault; ReplaceRange [o; x] pos pos;
                               SetCursor pos'])
                 (lookups w ++ [[o]])).
Proof.
  intros char pos pos' HL Hch Hsel Hopen Hnext.
  destruct (getCloseBracket_opener _ Hopen) as (o & x & Ho & Hx & Hc & Eo & Ex).
  exists o, x. rewrite <- Ho. split; [reflexivity |].
  split; [exact Hx |]. split; [exact Hc |].
  rewrite (keypress_autocompletes event w L HL Hopen Hnext).
  fold char. rewrite Hx, Ho.
  exact (autocomplete_inserts o x pos
           (mkWorld (doc w) (selBefore w) (primary w) (selAfter w)
                    (indentUnit w) (defaultPrevented w) (issued w)
                    (lookups w ++ [[o]]))
           L HL Hch Hsel Eo Ex).
Qed.

(** A document with the pair [o], [x] at column [c] of line [l]. *)
Lemma pair_in_line (L : jsstring) (c : Z) (o x : N) :
  0 <= c <= JS.length L ->
  let L1 := firstn (Z.to_nat c) L ++ [o; x] ++ skipn (Z.to_nat c) L in
  JS.length L1 = JS.length L + 2
  /\ charAt L1 c = [o]
  /\ charAt L1 (c + 1) = [x]
  /\ firstn (Z.to_nat c) L1 = firstn (Z.to_nat c) L
  /\ skipn (Z.to_nat (c + 2)) L1 = skipn (Z.to_nat c) L.
Proof.
  intros Hc L1. unfold JS.length in Hc.
  assert (Hf : List.length (firstn (Z.to_nat c) L) = Z.to_nat c)
    by (rewrite length_firstn; lia).
  split; [| split; [| split; [| split]]].
  - unfold L1, JS.length. rewrite !length_app, Hf, length_skipn.
    cbn [List.length]. lia.
  - unfold L1, charAt. destruct (Z.ltb_spec c 0); [lia |].
    rewrite nth_error_app2; rewrite Hf; [| lia].
    rewrite Nat.sub_diag. reflexivity.
  - unfold L1, charAt. destruct (Z.ltb_spec (c + 1) 0); [lia |].
    rewrite nth_error_app2; rewrite Hf; [| lia].
    replace (Z.to_nat (c + 1) - Z.to_nat c)%nat with 1%nat by lia.
    reflexivity.
  - unfold L1. rewrite firstn_app, Hf, Nat.sub_diag. cbn [firstn].
    rewrite app_nil_r. apply firstn_all2. lia.
  - unfold L1. rewrite skipn_app, Hf.
    rewrite skipn_all2 by lia.
    replace (Z.to_nat (c + 2) - Z.to_nat c)%nat with 2%nat by lia.
    reflexivity.
Qed.

Lemma pair_in_line_next (L : jsstring) (c : Z) (o x : N) :
  0 <= c <= JS.length L ->
  let L1 := firstn (Z.to_nat c) L ++ [o; x] ++ skipn (Z.to_nat c) L in
  firstn (Z.to_nat (c + 1)) L1 = firstn (Z.to_nat c) L ++ [o]
  /\ skipn (Z.to_nat (c + 1)) L1 = x :: skipn (Z.to_nat c) L.
Proof.
  intros Hc L1. unfold JS.length in Hc. unfold L1.
  set (F := firstn (Z.to_nat c) L).
  assert (Hf : List.length F = Z.to_nat c)
    by (unfold F; rewrite length_firstn; lia).
  replace (Z.to_nat (c + 1)) with (List.length F + 1)%nat by lia.
  split.
  - rewrite firstn_app_2. reflexivity.
  - rewrite skipn_app, skipn_all2 by lia.
    replace (List.length F + 1 - List.length F)%nat with 1%nat by lia.
    reflexivity.
Qed.

Lemma setLine_setLine (d : list jsstring) (l : Z) (X Y : jsstring) :
  0 <= l < Z.of_nat (List.length d) ->
  setLine (setLine d l X) l Y = setLine d l Y.
Proof.
  intros Hl. unfold setLine.
  assert (Hf : List.length (firstn (Z.to_nat l) d) = Z.to_nat l)
    by (rewrite length_firstn; lia).
  rewrite firstn_app, Hf, Nat.sub_diag. cbn [firstn]. rewrite app_nil_r.
  rewrite firstn_all2 by lia. f_equal. f_equal.
  rewrite skipn_app, Hf, skipn_all2 by lia.
  replace (Z.to_nat (l + 1) - Z.to_nat l)%nat with 1%nat by lia.
  reflexivity.
Qed.

Lemma setLine_same (d : list jsstring) (l : Z) :
  0 <= l < Z.of_nat (List.length d) ->
  setLine d l (Host.lineText d l) = d.
Proof.
  intros Hl. unfold setLine, Host.lineText.
  rewrite <- (firstn_skipn (Z.to_nat l) d) at 4.
  f_equal.
  replace (Z.to_nat (l + 1)) with (S (Z.to_nat l)) by lia.
  assert (Hlt : (Z.to_nat l < List.length d)%nat) by lia.
  clear Hl. revert Hlt. generalize (Z.to_nat l) as n. intros n.
  revert d. induction n as [|n IH]; intros [|y d] H; cbn in *; try lia.
  - reflexivity.
  - apply IH. lia.
Qed.

Lemma getLine_setLine (w w1 : world) (l : Z) (L L1 : jsstring) :
  Host.getLine l w = Some L ->
  doc w1 = setLine (doc w) l L1 ->
  Host.getLine l w1 = Some L1.
Proof.
  intros HL Hd. apply getLine_Some in HL as [Hl _].
  unfold Host.getLine. rewrite Hd, length_setLine, lineText_setLine
    by assumption.
  destruct (Z.leb_spec 0 l); [| lia].
  destruct (Z.ltb_spec l (Z.of_nat (List.length (doc w)))); [| lia].
  reflexivity.
Qed.

Lemma nothing_selected_at (w : world) (p : Pos.t) :
  ranges w = [cursorAt p] -> Host.somethingSelected w = false.
Proof.
  intros H. unfold Host.somethingSelected. rewrite H. cbn.
  unfold Host.rangeEmpty, cursorAt. cbn.
  replace (Pos.eqb p p) with true; [reflexivity |].
  symmetry. apply Pos_eqb_eq. reflexivity.
Qed.

(** [handleBackspace] between the opener [o] and its closer [x]. *)
Lemma backspace_run (event : Event) (w : world) (L : jsstring) (o x : N) :
  let pos := cursor w in
  Host.getLine (Pos.line pos) w = Some L ->
  Host.somethingSelected w = false ->
  charAt L (Pos.ch pos - 1) = [o] -> charAt L (Pos.ch pos) = [x] ->
  isOpenBracket [o] = true -> getCloseBracket [o] = Some [x] ->
  run (handleBackspace event) w
  = Some (Host.makeChange
            (mkChange (Pos.mk (Pos.line pos) (Pos.ch pos - 1))
                      (Pos.mk (Pos.line pos) (Pos.ch pos + 1)) [[]])
            (mkWorld (doc w) (selBefore w) (primary w) (selAfter w)
                     (indentUnit w) true
                     (issued w
                      ++ [PreventDefault;
                          ReplaceRange []
                            (Pos.mk (Pos.line pos) (Pos.ch pos - 1))
                            (Pos.mk (Pos.line pos) (Pos.ch pos + 1))])
                     (lookups w ++ [[o]]))).
Proof.
  intros pos HL Hsel Hprev Hnext Hopen Hclose.
  destruct (charAt_unit _ _ _ Hprev) as [Hp _].
  destruct (charAt_unit _ _ _ Hnext) as [Hn _].
  unfold run, handleBackspace. step.
  rewrite Hsel. cbn. fold pos. rewrite HL. cbn.
  rewrite Hprev, Hnext, Hopen. cbn.
  rewrite Hclose. unfold strictEq. rewrite eqb_refl.
  rewrite replaceRange_inline with (L := L);
    [| exact HL | lia | lia | constructor].
  rewrite <- app_assoc. reflexivity.
Qed.

(** X6: typing an opener with nothing selected and then pressing Backspace
    gives back the document and the cursor as they were: the pair that the
    first keystroke inserted is the pair that the second one removes. *)
Theorem opener_then_backspace_restores
  (event event' : Event) (w : world) (L : jsstring) :
  let char := fromCharCode (charCode event) in
  let pos := cursor w in
  Host.getLine (Pos.line pos) w = Some L ->
  0 <= Pos.ch pos <= JS.length L ->
  Host.somethingSelected w = false ->
  isOpenBracket char = true ->
  isCloseBracket char = false \/ charAt L (Pos.ch pos) <> char ->
  key event' = lit "Backspace" ->
  exists w1 w2,
    run (handleKeypress event) w = Some w1
    /\ run (handleKeydown event') (nextEvent w1) = Some w2
    /\ doc w2 = doc w
    /\ ranges w2 = [cursorAt pos]
    /\ defaultPrevented w2 = true.
Proof.
  intros char pos HL Hch Hsel Hopen Hnext Hkey.
  destruct (keypress_inserts event w L HL Hch Hsel Hopen Hnext)
    as (o & x & Ho & Hx & Hc & Hrun).
  fold char pos in Ho, Hrun.
  set (L1 := firstn (Z.to_nat (Pos.ch pos)) L ++ [o; x]
             ++ skipn (Z.to_nat (Pos.ch pos)) L) in *.
  set (pos' := Pos.mk (Pos.line pos) (Pos.ch pos + 1)) in *.
  match type of Hrun with _ = Some ?W => set (w1 := W) in * end.
  destruct (pair_in_line L (Pos.ch pos) o x Hch)
    as (Hlen & Hco & Hcx & Hfirst & Hskip).
  fold L1 in Hlen, Hco, Hcx, Hfirst, Hskip.
  pose proof HL as HL'. apply getLine_Some in HL' as [Hl HLt].
  assert (HL1 : Host.getLine (Pos.line (cursor (nextEvent w1))) (nextEvent w1)
                = Some L1).
  { apply (getLine_setLine w _ _ L L1 HL). reflexivity. }
  assert (Hsel1 : Host.somethingSelected (nextEvent w1) = false).
  { apply (nothing_selected_at _ pos'). reflexivity. }
  assert (Hback :
    run (handleKeydown event') (nextEvent w1)
    = run (handleBackspace event') (nextEvent w1)).
  { unfold handleKeydown. rewrite Hkey. reflexivity. }
  exists w1. eexists. split; [exact Hrun |]. split.
  { rewrite Hback.
    apply (backspace_run event' (nextEvent w1) L1 o x HL1 Hsel1).
    - change (Pos.ch (cursor (nextEvent w1)) - 1) with (Pos.ch pos + 1 - 1).
      replace (Pos.ch pos + 1 - 1) with (Pos.ch pos) by lia. exact Hco.
    - exact Hcx.
    - rewrite <- Ho. exact Hopen.
    - exact Hx. }
  change (cursor (nextEvent w1)) with pos'.
  cbn [doc ranges selBefore primary selAfter defaultPrevented
       Host.makeChange nextEvent w1 map app Pos.line Pos.ch pos'].
  split; [| split; [| reflexivity]].
  - rewrite updateDoc_inline;
      rewrite lineText_setLine by assumption; [| lia | lia].
    rewrite setLine_setLine by assumption.
    replace (Pos.ch pos + 1 - 1) with (Pos.ch pos) by lia.
    replace (Pos.ch pos + 1 + 1) with (Pos.ch pos + 2) by lia.
    rewrite Hfirst, Hskip. cbn [app]. rewrite firstn_skipn, <- HLt.
    apply setLine_same. exact Hl.
  - unfold Host.adjustRange, cursorAt. cbn [anchor head]. unfold pos'.
    rewrite adjustForChange_inline by lia.
    replace (Pos.ch pos + 1 - 1 + JS.length []) with (Pos.ch pos)
      by (unfold JS.length; cbn; lia).
    rewrite <- pos_eta. reflexivity.
Qed.

(** A closer typed before the same character: the cursor steps over it. *)
Lemma type_through_run (event : Event) (w : world) (L : jsstring) :
  let char := fromCharCode (charCode event) in
  let pos := cursor w in
  let pos' := Pos.mk (Pos.line pos) (Pos.ch pos + 1) in
  Host.getLine (Pos.line pos) w = Some L ->
  isCloseBracket char = true ->
  charAt L (Pos.ch pos) = char ->
  run (handleKeypress event) w
  = Some (mkWorld (doc w) [] (cursorAt pos') [] (indentUnit w) true
                  (issued w ++ [PreventDefault; SetCursor pos'])
                  (lookups w ++ [char])).
Proof.
  intros char pos pos' HL Hclose Hnext.
  destruct (isCloseBracket_unit _ Hclose) as [x Hx].
  rewrite Hx in Hnext. destruct (charAt_unit _ _ _ Hnext) as [Hch _].
  rewrite <- Hx in Hnext.
  assert (Hclip : Host.clipPos (doc w) pos' = pos').
  { apply getLine_Some in HL as [Hl HL].
    apply clipPos_inside; [assumption | rewrite HL; lia]. }
  unfold run, handleKeypress. fold char. clearbody char. rewrite Hclose.
  destruct (isOpenBracket char); step; fold pos; rewrite HL; simpl;
    rewrite Hnext, eqb_refl; simpl; unfold Host.setCursor; simpl;
    fold pos'; rewrite Hclip, <- app_assoc; reflexivity.
Qed.

(** X7: typing an opener with nothing selected, a quote not right before
    the same quote, and then its closer leaves exactly the pair in the
    line, the cursor behind it: the second keystroke inserts nothing.  For
    a quote the closer is the quote itself, so a quote typed twice gives
    one pair, not two. *)
Theorem opener_then_closer_leaves_one_pair
  (event event' : Event) (w : world) (L : jsstring) :
  let char := fromCharCode (charCode event) in
  let char' := fromCharCode (charCode event') in
  let pos := cursor w in
  let pos'' := Pos.mk (Pos.line pos) (Pos.ch pos + 2) in
  Host.getLine (Pos.line pos) w = Some L ->
  0 <= Pos.ch pos <= JS.length L ->
  Host.somethingSelected w = false ->
  isOpenBracket char = true ->
  isCloseBracket char = false \/ charAt L (Pos.ch pos) <> char ->
  getCloseBracket char = Some char' ->
  exists w1 w2,
    run (handleKeypress event) w = Some w1
    /\ run (handleKeypress event') (nextEvent w1) = Some w2
    /\ doc w2 = setLine (doc w) (Pos.line pos)
                  (firstn (Z.to_nat (Pos.ch pos)) L ++ char ++ char'
                   ++ skipn (Z.to_nat (Pos.ch pos)) L)
    /\ ranges w2 = [cursorAt pos'']
    /\ issued w2 = issued w1 ++ [PreventDefault; SetCursor pos''].
Proof.
  intros char char' pos pos'' HL Hch Hsel Hopen Hnext Hclose.
  destruct (keypress_inserts event w L HL Hch Hsel Hopen Hnext)
    as (o & x & Ho & Hx & Hc & Hrun).
  fold char pos in Ho, Hrun.
  assert (Hx' : char' = [x]) by (rewrite Ho in Hclose; congruence).
  set (L1 := firstn (Z.to_nat (Pos.ch pos)) L ++ [o; x]
             ++ skipn (Z.to_nat (Pos.ch pos)) L) in *.
  match type of Hrun with _ = Some ?W => set (w1 := W) in * end.
  destruct (pair_in_line L (Pos.ch pos) o x Hch) as (_ & _ & Hcx & _).
  fold L1 in Hcx.
  assert (HL1 : Host.getLine (Pos.line (cursor (nextEvent w1))) (nextEvent w1)
                = Some L1).
  { apply (getLine_setLine w _ _ L L1 HL). reflexivity. }
  pose proof (type_through_run event' (nextEvent w1) L1 HL1) as H2.
  cbv zeta in H2. fold char' in H2. rewrite Hx' in H2.
  specialize (H2 Hc Hcx).
  exists w1. eexists. split; [exact Hrun |]. split; [exact H2 |].
  change (cursor (nextEvent w1))
    with (Pos.mk (Pos.line pos) (Pos.ch pos + 1)).
  cbn [doc ranges selBefore primary selAfter issued nextEvent w1 app
       Pos.line Pos.ch].
  rewrite Ho, Hx'.
  replace (Pos.ch pos + 1 + 1) with (Pos.ch pos + 2) by lia.
  repeat split.
Qed.

(** X8: an opener that is no closer, typed twice with nothing selected,
    gives two nested pairs with the cursor in the middle. *)
Theorem pure_opener_twice_nests (event : Event) (w : world) (L : jsstring) :
  let char := fromCharCode (charCode event) in
  let pos := cursor w in
  Host.getLine (Pos.line pos) w = Some L ->
  0 <= Pos.ch pos <= JS.length L ->
  Host.somethingSelected w = false ->
  isOpenBracket char = true ->
  isCloseBracket char = false ->
  exists close w1 w2,
    getCloseBracket char = Some close
    /\ run (handleKeypress event) w = Some w1
    /\ run (handleKeypress event) (nextEvent w1) = Some w2
    /\ doc w2 = setLine (doc w) (Pos.line pos)
                  (firstn (Z.to_nat (Pos.ch pos)) L
                   ++ char ++ char ++ close ++ close
                   ++ skipn (Z.to_nat (Pos.ch pos)) L)
    /\ ranges w2 = [cursorAt (Pos.mk (Pos.line pos) (Pos.ch pos + 2))].
Proof.
  intros char pos HL Hch Hsel Hopen Hpure.
  destruct (keypress_inserts event w L HL Hch Hsel Hopen (or_introl Hpure))
    as (o & x & Ho & Hx & Hc & Hrun).
  fold char pos in Ho, Hrun.
  set (L1 := firstn (Z.to_nat (Pos.ch pos)) L ++ [o; x]
             ++ skipn (Z.to_nat (Pos.ch pos)) L) in *.
  match type of Hrun with _ = Some ?W => set (w1 := W) in * end.
  destruct (pair_in_line L (Pos.ch pos) o x Hch) as (Hlen & _).
  fold L1 in Hlen.
  pose proof HL as HL'. apply getLine_Some in HL' as [Hl HLt].
  assert (HL1 : Host.getLine (Pos.line (cursor (nextEvent w1))) (nextEvent w1)
                = Some L1).
  { apply (getLine_setLine w _ _ L L1 HL). reflexivity. }
  assert (Hsel1 : Host.somethingSelected (nextEvent w1) = false).
  { apply (nothing_selected_at _ (Pos.mk (Pos.line pos) (Pos.ch pos + 1))).
    reflexivity. }
  assert (Hch1 : 0 <= Pos.ch (cursor (nextEvent w1)) <= JS.length L1).
  { change (Pos.ch (cursor (nextEvent w1))) with (Pos.ch pos + 1). lia. }
  destruct (keypress_inserts event (nextEvent w1) L1 HL1 Hch1 Hsel1 Hopen
              (or_introl Hpure))
    as (o' & x' & Ho' & Hx' & _ & Hrun2).
  fold char in Ho'.
  assert (o' = o) by congruence. subst o'.
  assert (x' = x) by congruence. subst x'.
  exists [x], w1. eexists.
  split; [rewrite Ho; exact Hx |]. split; [exact Hrun |].
  split; [exact Hrun2 |].
  change (cursor (nextEvent w1))
    with (Pos.mk (Pos.line pos) (Pos.ch pos + 1)).
  cbn [doc ranges selBefore primary selAfter nextEvent w1 app
       Pos.line Pos.ch].
  split.
  - rewrite setLine_setLine by assumption. f_equal. rewrite Ho.
    destruct (pair_in_line_next L (Pos.ch pos) o x Hch) as [Hf Hs].
    fold L1 in Hf, Hs. rewrite Hf, Hs, <- !app_assoc. reflexivity.
  - replace (Pos.ch pos + 1 + 1) with (Pos.ch pos + 2) by lia. reflexivity.
Qed.

(** ** A selection made backwards *)

(** Read from its end to its start, a selection is the empty string. *)
Lemma getBetween_backward
  (A C : list jsstring) (P Q r : jsstring) (rs : list jsstring) :
  let first := Z.of_nat (List.length A) in
  join [LF] (Host.getBetween (A ++ embed P (r :: rs) Q ++ C)
               (endOfRows first P (r :: rs)) (Pos.mk first (JS.length P)))
  = [].
Proof.
  intros first. unfold Host.getBetween, endOfRows.
  cbn [Pos.line Pos.ch].
  destruct rs as [|r2 rs].
  - change (Z.of_nat (List.length [r])) with 1.
    replace (first + 1 - 1) with first by lia.
    replace (first + 1 - first) with (Z.of_nat 1) by lia.
    rewrite lineNumbers_nat. cbn [seq map join].
    rewrite Z.add_0_r, Z.eqb_refl, embed_single.
    replace first with (first + Z.of_nat 0) at 1 by lia.
    unfold first at 1. rewrite lineText_app. cbn [nth app].
    rewrite slice_app_prefix.
    unfold slice, JS.length.
    destruct (Z.ltb_spec (Z.of_nat (List.length P) + Z.of_nat (List.length r)) 0);
      [lia |].
    rewrite Z.min_r by lia.
    rewrite Z.sub_diag. reflexivity.
  - unfold Host.lineNumbers.
    replace (Z.to_nat (first + 1
                       - (first + Z.of_nat (List.length (r :: r2 :: rs)) - 1)))
      with 0%nat by (cbn [List.length]; lia).
    reflexivity.
Qed.

(** X9: a selection whose anchor stands behind its head is not wrapped
    when an opener is typed, a quote not with the head right before the
    same quote: the handler reads the text of the selection as the empty
    string and replaces the selection by the bare pair, so the selected
    text is gone. *)
Theorem backward_selection_is_replaced
  (event : Event) (w : world) (A C : list jsstring) (P Q r : jsstring)
  (rs : list jsstring) :
  let char := fromCharCode (charCode event) in
  let first := Z.of_nat (List.length A) in
  let rows := r :: rs in
  let start := Pos.mk first (JS.length P) in
  let stop := endOfRows first P rows in
  doc w = A ++ embed P rows Q ++ C ->
  selBefore w = [] -> primary w = mkRange stop start -> selAfter w = [] ->
  join [LF] rows <> [] ->
  isOpenBracket char = true ->
  isCloseBracket char = false
  \/ charAt (Host.lineText (doc w) first) (JS.length P) <> char ->
  exists close,
    getCloseBracket char = Some close
    /\ Host.getRange stop start w = []
    /\ run (handleKeypress event) w
       = Some (mkWorld
                 (A ++ [P ++ (char ++ close) ++ Q] ++ C)
                 [] (cursorAt (Pos.mk first (JS.length P + 2))) []
                 (indentUnit w) true
                 (issued w ++ [PreventDefault;
                               ReplaceRange (char ++ close) stop start])
                 (lookups w ++ [char])).
Proof.
  intros char first rows start stop Hdoc Hsb Hprim Hsa HT Hopen Hnext.
  destruct (selection_in_doc A C P Q r rs)
    as (Hca & Hch & Hcmp & _ & Hupd & (X & Hlh & _) & Hne).
  fold first rows start stop in Hca, Hch, Hcmp, Hupd, Hlh, Hne.
  specialize (Hne HT).
  destruct (getCloseBracket_opener _ Hopen) as (o & x & Ho & Hx & _ & Eo & Ex).
  exists [x]. split; [assumption |].
  assert (Hrange : forall w1, doc w1 = doc w ->
                              Host.getRange stop start w1 = []).
  { intros w1 Hd. unfold Host.getRange. rewrite Hd, Hdoc, Hca, Hch.
    apply getBetween_backward. }
  split; [apply Hrange; reflexivity |].
  assert (Hsplit : splitLines (char ++ [] ++ [x]) = [char ++ [x]]).
  { apply splitLines_noEOL. rewrite Ho. cbn [app].
    inversion Eo; inversion Ex; subst. repeat constructor; tauto. }
  set (c := mkChange start stop [char ++ [x]]).
  assert (Hlt : Pos.cmp start stop < 0).
  { rewrite cmp_antisym.
    assert (Pos.cmp stop start <> 0); [| lia].
    intros E. unfold Pos.cmp in E. unfold Pos.eqb in Hne.
    destruct (Z.eqb_spec (Pos.line stop) (Pos.line start)) as [El | El].
    - cbn [andb] in Hne. apply Z.eqb_neq in Hne. lia.
    - lia. }
  assert (Hreplace : forall w1, doc w1 = doc w ->
            Host.replaceRange (char ++ [] ++ [x]) stop start w1
            = Host.makeChange c w1).
  { intros w1 Hd. unfold Host.replaceRange. rewrite Hd, Hdoc, Hca, Hch, Hsplit.
    destruct (Z.ltb_spec (Pos.cmp start stop) 0); [reflexivity | lia]. }
  assert (Hend : Host.changeEnd c = Pos.mk first (JS.length P + 2)).
  { unfold c, start. rewrite changeEnd_endOfRows by discriminate.
    unfold endOfRows. rewrite Ho. unfold JS.length.
    cbn [List.length app]. f_equal; lia. }
  assert (Hadj : Host.adjustRange c (mkRange stop start)
                 = cursorAt (Pos.mk first (JS.length P + 2))).
  { unfold Host.adjustRange, cursorAt. cbn [anchor head].
    rewrite !adjustForChange_inside, Hend; cbn [from to c];
      rewrite ?cmp_refl; try lia. reflexivity. }
  assert (Hmk : forall w1,
            doc w1 = doc w -> selBefore w1 = [] ->
            primary w1 = mkRange stop start -> selAfter w1 = [] ->
            Host.makeChange c w1
            = mkWorld (A ++ [P ++ (char ++ [x]) ++ Q] ++ C) []
                      (cursorAt (Pos.mk first (JS.length P + 2))) []
                      (indentUnit w1) (defaultPrevented w1) (issued w1)
                      (lookups w1)).
  { intros w1 Hd H1 H2 H3. unfold Host.makeChange.
    rewrite H1, H2, H3, Hadj, Hd, Hdoc. unfold c. rewrite Hupd.
    reflexivity. }
  assert (Hsel : Host.somethingSelected w = true).
  { unfold Host.somethingSelected, ranges. rewrite Hsb, Hprim, Hsa.
    cbn [app existsb]. unfold Host.rangeEmpty. cbn [anchor head].
    replace (Pos.eqb start stop) with false; [reflexivity |].
    unfold Pos.eqb in *. rewrite (Z.eqb_sym (Pos.line start)),
      (Z.eqb_sym (Pos.ch start)). symmetry. exact Hne. }
  assert (Hlen : 0 <= first < Z.of_nat (List.length (doc w))).
  { rewrite Hdoc, length_app. unfold embed, rows.
    destruct (Host.appendLast (r :: rs) Q) eqn:E;
      [destruct rs; discriminate |].
    cbn [Host.prependFirst app List.length]. lia. }
  assert (HL : Host.getLine (Pos.line (cursor w)) w
               = Some (Host.lineText (doc w) first)).
  { unfold cursor. rewrite Hprim. cbn [head Pos.line start].
    unfold Host.getLine.
    destruct (Z.leb_spec 0 first); [| lia].
    destruct (Z.ltb_spec first (Z.of_nat (List.length (doc w)))); [| lia].
    reflexivity. }
  assert (Hnext' : isCloseBracket char = false
                   \/ charAt (Host.lineText (doc w) first)
                        (Pos.ch (cursor w)) <> char).
  { unfold cursor. rewrite Hprim. exact Hnext. }
  rewrite (keypress_autocompletes event w _ HL Hopen Hnext').
  fold char. rewrite Hx. clearbody char c start stop.
  unfold run, autocomplete. step.
  rewrite (somethingSelected_ranges w) by reflexivity.
  rewrite Hsel. unfold ranges. cbn [selBefore primary selAfter].
  rewrite Hsb, Hprim, Hsa. cbn [app forEach anchor head].
  step. rewrite Hrange, Hreplace, Hmk by reflexivity.
  cbn. rewrite <- !app_assoc. reflexivity.
Qed.

(** ** Selections on lines of their own *)

Lemma lineText_setLine_other (d : list jsstring) (l n : Z) (X : jsstring) :
  0 <= l < Z.of_nat (List.length d) -> 0 <= n -> n <> l ->
  Host.lineText (setLine d l X) n = Host.lineText d n.
Proof.
  intros Hl Hn Hne. unfold Host.lineText, setLine.
  assert (Hf : List.length (firstn (Z.to_nat l) d) = Z.to_nat l)
    by (rewrite length_firstn; lia).
  rewrite <- (firstn_skipn (Z.to_nat l) d) at 3.
  destruct (Z.ltb_spec n l).
  - rewrite !app_nth1 by lia. reflexivity.
  - rewrite !app_nth2 by lia. rewrite Hf.
    replace (Z.to_nat n - Z.to_nat l)%nat
      with (S (Z.to_nat n - Z.to_nat l - 1)) by lia.
    replace (Z.to_nat (l + 1)) with (1 + Z.to_nat l)%nat by lia.
    rewrite <- skipn_skipn.
    destruct (skipn (Z.to_nat l) d) as [|y rest]; [| reflexivity].
    cbn. destruct (Z.to_nat n - Z.to_nat l - 1)%nat; reflexivity.
Qed.

Lemma slice_inside (L : jsstring) (a b : Z) :
  0 <= a <= b -> b <= JS.length L ->
  slice (slice L 0 (Some b)) a None = slice L a (Some b)
  /\ slice L a (Some b)
     = firstn (Z.to_nat (b - a)) (skipn (Z.to_nat a) L).
Proof.
  intros Hab Hb. split.
  - rewrite slice_prefix by lia. rewrite slice_suffix.
    + unfold slice, JS.length in *.
      destruct (Z.ltb_spec a 0); [lia |].
      destruct (Z.ltb_spec b 0); [lia |].
      rewrite !Z.min_l, Z.max_l by lia.
      rewrite skipn_firstn_comm. f_equal. lia.
    + unfold JS.length in *. rewrite length_firstn. lia.
  - unfold slice, JS.length in *.
    destruct (Z.ltb_spec a 0); [lia |].
    destruct (Z.ltb_spec b 0); [lia |].
    rewrite !Z.min_l, Z.max_l by lia. reflexivity.
Qed.

Lemma noEOL_slice (L : jsstring) (a b : Z) :
  0 <= a <= b -> b <= JS.length L -> noEOL L ->
  noEOL (slice L a (Some b)).
Proof.
  intros Hab Hb HL. rewrite (proj2 (slice_inside L a b Hab Hb)).
  unfold noEOL in *.
  rewrite <- (firstn_skipn (Z.to_nat a) L) in HL.
  apply Forall_app in HL as [_ HL].
  rewrite <- (firstn_skipn (Z.to_nat (b - a)) (skipn (Z.to_nat a) L)) in HL.
  apply Forall_app in HL as [HL _]. exact HL.
Qed.

Lemma getRange_inOneLine (w : world) (l a b : Z) :
  Host.clipPos (doc w) (Pos.mk l a) = Pos.mk l a ->
  Host.clipPos (doc w) (Pos.mk l b) = Pos.mk l b ->
  Host.getRange (Pos.mk l a) (Pos.mk l b) w
  = slice (slice (Host.lineText (doc w) l) 0 (Some b)) a None.
Proof.
  intros Ha Hb. unfold Host.getRange, Host.getBetween. rewrite Ha, Hb.
  cbn [Pos.line Pos.ch].
  replace (l + 1 - l) with (Z.of_nat 1) by lia.
  rewrite lineNumbers_nat. cbn [seq map join].
  rewrite Z.add_0_r, Z.eqb_refl. reflexivity.
Qed.

(** One turn of the loop of [autocomplete] on a range within one line. *)
Lemma wrap_one_line (o x : N) (r : Range) (w : world) :
  inOneLine (doc w) r ->
  noEOL (Host.lineText (doc w) (lineOf r)) ->
  noEOL [o] -> noEOL [x] ->
  exists w',
    (text <- cm.getRange (anchor r) (head r) ;;
     cm.replaceRange ([o] ++ text ++ toString (Some [x]))
                     (anchor r) (Some (head r))) w
    = Some (tt, w')
    /\ doc w' = setLine (doc w) (lineOf r)
                  (wrapLine [o] [x] (Host.lineText (doc w) (lineOf r)) r).
Proof.
  intros (Hline & Hl & Hab & Hb) HL Ho Hx. unfold lineOf in *.
  destruct r as [[l a] [l' b]]. cbn [anchor head Pos.line Pos.ch] in *.
  subst l'. set (L := Host.lineText (doc w) l) in *.
  assert (Hca : Host.clipPos (doc w) (Pos.mk l a) = Pos.mk l a)
    by (apply clipPos_inside; [assumption | fold L; lia]).
  assert (Hcb : Host.clipPos (doc w) (Pos.mk l b) = Pos.mk l b)
    by (apply clipPos_inside; [assumption | fold L; lia]).
  assert (HT : Host.getRange (Pos.mk l a) (Pos.mk l b) w
               = slice L a (Some b)).
  { rewrite getRange_inOneLine by assumption. fold L.
    apply slice_inside; lia. }
  assert (Hcode : noEOL ([o] ++ slice L a (Some b) ++ [x])).
  { repeat (apply Forall_app; split); try assumption.
    apply noEOL_slice; assumption || lia. }
  assert (HgL : Host.getLine l w = Some L).
  { unfold Host.getLine.
    destruct (Z.leb_spec 0 l); [| lia].
    destruct (Z.ltb_spec l (Z.of_nat (List.length (doc w)))); [| lia].
    reflexivity. }
  eexists. split.
  - step. rewrite HT.
    rewrite replaceRange_inline with (L := L);
      [reflexivity | exact HgL | lia | lia | exact Hcode].
  - cbn [doc Host.makeChange]. rewrite updateDoc_inline by (fold L; lia).
    fold L. unfold wrapLine. cbn [anchor head Pos.ch app].
    rewrite <- app_assoc. reflexivity.
Qed.

Lemma noEOL_lineText (d : list jsstring) (n : Z) :
  Forall noEOL d -> noEOL (Host.lineText d n).
Proof.
  intros Hd. unfold Host.lineText.
  destruct (nth_in_or_default (Z.to_nat n) d []) as [Hin | ->].
  - rewrite Forall_forall in Hd. apply Hd. exact Hin.
  - constructor.
Qed.

(** The loop of [autocomplete] over ranges that lie on lines of their
    own. *)
Lemma forEach_wrap_lines (o x : N) (rs : list Range) :
  noEOL [o] -> noEOL [x] ->
  forall w,
    Forall (fun r => inOneLine (doc w) r
                     /\ noEOL (Host.lineText (doc w) (lineOf r))) rs ->
    NoDup (map lineOf rs) ->
    exists w',
      forEach rs (fun selection =>
        text <- cm.getRange (anchor selection) (head selection) ;;
        cm.replaceRange ([o] ++ text ++ toString (Some [x]))
                        (anchor selection) (Some (head selection))) w
      = Some (tt, w')
      /\ List.length (doc w') = List.length (doc w)
      /\ (forall r, In r rs ->
            Host.lineText (doc w') (lineOf r)
            = wrapLine [o] [x] (Host.lineText (doc w) (lineOf r)) r)
      /\ (forall n, 0 <= n -> ~ In n (map lineOf rs) ->
            Host.lineText (doc w') n = Host.lineText (doc w) n).
Proof.
  intros Ho Hx. induction rs as [|r rs IH]; intros w Hvalid Hnodup.
  - exists w. repeat split. intros r [].
  - inversion Hvalid as [|? ? [Hr HLr] Hrs]; subst.
    inversion Hnodup as [|? ? Hnotin Hnodup']; subst.
    destruct (wrap_one_line o x r w Hr HLr Ho Hx) as (w1 & Hstep & Hdoc1).
    assert (Hlr : 0 <= lineOf r < Z.of_nat (List.length (doc w)))
      by (destruct Hr as (_ & H & _); exact H).
    assert (Hlen1 : List.length (doc w1) = List.length (doc w))
      by (rewrite Hdoc1; apply length_setLine; exact Hlr).
    assert (Hother : forall n, 0 <= n -> n <> lineOf r ->
              Host.lineText (doc w1) n = Host.lineText (doc w) n).
    { intros n Hn Hne. rewrite Hdoc1.
      apply lineText_setLine_other; assumption. }
    assert (Hvalid1 :
      Forall (fun r' => inOneLine (doc w1) r'
                        /\ noEOL (Host.lineText (doc w1) (lineOf r'))) rs).
    { rewrite Forall_forall in *. intros r' Hin.
      destruct (Hrs r' Hin) as [(H1 & H2 & H3 & H4) H5].
      assert (Hne : lineOf r' <> lineOf r).
      { intros E. apply Hnotin. rewrite <- E. apply in_map. exact Hin. }
      unfold lineOf in *.
      split; [unfold inOneLine; rewrite Hlen1 | ];
        rewrite Hother by (assumption || lia); auto. }
    destruct (IH w1 Hvalid1 Hnodup') as (w2 & Hrun & Hlen2 & Hin2 & Hout2).
    exists w2. split; [| split; [| split]].
    + cbn [forEach]. unfold bind at 1. rewrite Hstep. exact Hrun.
    + congruence.
    + intros r' [<- | Hin].
      * rewrite Hout2 by (lia || assumption).
        rewrite Hdoc1. apply lineText_setLine. exact Hlr.
      * rewrite (Hin2 r' Hin). f_equal. apply Hother.
        -- rewrite Forall_forall in Hrs.
           destruct (Hrs r' Hin) as [(_ & H & _) _]. unfold lineOf. lia.
        -- intros E. apply Hnotin. rewrite <- E. apply in_map. exact Hin.
    + intros n Hn Hnotin'. cbn [map] in Hnotin'.
      rewrite Hout2; [| assumption |].
      * apply Hother; [assumption |]. intros E. apply Hnotin'. left.
        symmetry. exact E.
      * intros Hin. apply Hnotin'. right. exact Hin.
Qed.

(** X10: when every selection lies within one line and no two of them on
    the same line, typing an opener wraps each of them: every such line is
    its old text with the opener before and the closer behind the selected
    stretch, all other lines stay, and no line is added or lost. *)
Theorem wrap_selections_on_own_lines (event : Event) (w : world) :
  let char := fromCharCode (charCode event) in
  Forall (inOneLine (doc w)) (ranges w) ->
  Forall noEOL (doc w) ->
  NoDup (map lineOf (ranges w)) ->
  Host.somethingSelected w = true ->
  isOpenBracket char = true ->
  isCloseBracket char = false
  \/ charAt (Host.lineText (doc w) (Pos.line (cursor w))) (Pos.ch (cursor w))
     <> char ->
  exists close w',
    getCloseBracket char = Some close
    /\ run (handleKeypress event) w = Some w'
    /\ List.length (doc w') = List.length (doc w)
    /\ (forall r, In r (ranges w) ->
          Host.lineText (doc w') (lineOf r)
          = wrapLine char close (Host.lineText (doc w) (lineOf r)) r)
    /\ (forall n, 0 <= n -> ~ In n (map lineOf (ranges w)) ->
          Host.lineText (doc w') n = Host.lineText (doc w) n).
Proof.
  intros char Hvalid HnoEOL Hnodup Hsel Hopen Hnext.
  destruct (getCloseBracket_opener _ Hopen) as (o & x & Ho & Hx & _ & Eo & Ex).
  assert (Hprim : inOneLine (doc w) (primary w)).
  { apply (proj1 (Forall_forall _ _) Hvalid (primary w)).
    unfold ranges. apply in_or_app. right. left. reflexivity. }
  assert (HL : Host.getLine (Pos.line (cursor w)) w
               = Some (Host.lineText (doc w) (Pos.line (cursor w)))).
  { destruct Hprim as (H1 & H2 & _). unfold cursor, Host.getLine.
    rewrite H1.
    destruct (Z.leb_spec 0 (Pos.line (anchor (primary w)))); [| lia].
    destruct (Z.ltb_spec (Pos.line (anchor (primary w)))
                (Z.of_nat (List.length (doc w)))); [| lia].
    reflexivity. }
  rewrite (keypress_autocompletes event w _ HL Hopen Hnext).
  fold char. rewrite Hx, Ho.
  set (w1 := mkWorld (doc w) (selBefore w) (primary w) (selAfter w)
               (indentUnit w) true (issued w ++ [PreventDefault])
               (lookups w ++ [[o]])).
  assert (Hvalid1 :
    Forall (fun r => inOneLine (doc w1) r
                     /\ noEOL (Host.lineText (doc w1) (lineOf r)))
           (ranges w)).
  { apply Forall_forall. intros r Hin. split.
    - apply (proj1 (Forall_forall _ _) Hvalid r). exact Hin.
    - apply noEOL_lineText. exact HnoEOL. }
  destruct (forEach_wrap_lines o x (ranges w) Eo Ex w1 Hvalid1 Hnodup)
    as (w' & Hrun & Hlen & Hin & Hout).
  exists [x], w'. split; [reflexivity |].
  split; [| split; [exact Hlen | split; [exact Hin | exact Hout]]].
  unfold run, autocomplete. step.
  rewrite (somethingSelected_ranges w) by reflexivity. rewrite Hsel.
  exact (f_equal (option_map snd) Hrun).
Qed.

(** ** Enter, whatever is selected *)

(** X5: Enter is decided by the two characters around the head of the
    primary selection alone.  Behind an opener and before any closer, be it
    the opener's own or not and whatever is selected, the handler inserts
    the two line breaks and the indentation at that place, deleting
    nothing, and leaves one cursor at the end of the middle line; in every
    other case it returns with nothing done. *)
Theorem enter_looks_at_two_characters
  (event : Event) (w : world) (L : jsstring) :
  let pos := cursor w in
  let fires := isOpenBracket (charAt L (Pos.ch pos - 1))
               && isCloseBracket (charAt L (Pos.ch pos)) in
  let indentation := matchLeadingWhitespace L in
  let middle := indentation ++ JS.repeat (lit " ") (indentUnit w) in
  let pos' := Pos.mk (Pos.line pos + 1) (JS.length middle) in
  Host.getLine (Pos.line pos) w = Some L ->
  noEOL L ->
  (fires = true ->
   run (handleEnter event) w
   = Some (mkWorld
             (firstn (Z.to_nat (Pos.line pos)) (doc w)
              ++ [firstn (Z.to_nat (Pos.ch pos)) L;
                  middle;
                  indentation ++ skipn (Z.to_nat (Pos.ch pos)) L]
              ++ skipn (Z.to_nat (Pos.line pos + 1)) (doc w))
             [] (cursorAt pos') [] (indentUnit w) true
             (issued w
              ++ [PreventDefault;
                  ReplaceRange ([LF] ++ middle ++ [LF] ++ indentation)
                               pos pos;
                  SetCursor pos'])
             (lookups w)))
  /\ (fires = false -> handleEnter event w = Some (tt, w)).
Proof.
  intros pos fires indentation middle pos' HL HnoEOL. split; intros H.
  - apply andb_true_iff in H as [H1 H2].
    exact (handleEnter_splits event w L HL HnoEOL H1 H2).
  - exact (handleEnter_passes event w L HL H).
Qed.

Lemma matchLeadingWhitespace_app (A B : jsstring) (o : N) :
  isWhiteSpace o = false ->
  matchLeadingWhitespace (A ++ o :: B) = matchLeadingWhitespace A.
Proof.
  intros Ho. induction A as [|u A IH]; cbn [app matchLeadingWhitespace].
  - rewrite Ho. reflexivity.
  - destruct (isWhiteSpace u); [rewrite IH |]; reflexivity.
Qed.

(** X12: typing an opener with nothing selected, a quote not right before
    the same quote, and then pressing Enter opens a block: the text up to
    the cursor with the opener, an indented empty line with the cursor at
    its end, and the closer with the rest of the line, both new lines
    starting with the white space the old line started with before the
    cursor. *)
Theorem opener_then_enter_opens_block
  (event event' : Event) (w : world) (L : jsstring) :
  let char := fromCharCode (charCode event) in
  let pos := cursor w in
  let before := firstn (Z.to_nat (Pos.ch pos)) L in
  let behind := skipn (Z.to_nat (Pos.ch pos)) L in
  let indentation := matchLeadingWhitespace before in
  let middle := indentation ++ JS.repeat (lit " ") (indentUnit w) in
  Host.getLine (Pos.line pos) w = Some L ->
  0 <= Pos.ch pos <= JS.length L ->
  noEOL L ->
  Host.somethingSelected w = false ->
  isOpenBracket char = true ->
  isCloseBracket char = false \/ charAt L (Pos.ch pos) <> char ->
  key event' = lit "Enter" ->
  exists close w1 w2,
    getCloseBracket char = Some close
    /\ run (handleKeypress event) w = Some w1
    /\ run (handleKeydown event') (nextEvent w1) = Some w2
    /\ doc w2 = firstn (Z.to_nat (Pos.line pos)) (doc w)
                ++ [before ++ char; middle; indentation ++ close ++ behind]
                ++ skipn (Z.to_nat (Pos.line pos + 1)) (doc w)
    /\ ranges w2
       = [cursorAt (Pos.mk (Pos.line pos + 1) (JS.length middle))].
Proof.
  intros char pos before behind indentation middle
         HL Hch HnoEOL Hsel Hopen Hnext Hkey.
  destruct (keypress_inserts event w L HL Hch Hsel Hopen Hnext)
    as (o & x & Ho & Hx & Hc & Hrun).
  fold char pos in Ho, Hrun.
  set (L1 := firstn (Z.to_nat (Pos.ch pos)) L ++ [o; x]
             ++ skipn (Z.to_nat (Pos.ch pos)) L) in *.
  match type of Hrun with _ = Some ?W => set (w1 := W) in * end.
  destruct (pair_in_line L (Pos.ch pos) o x Hch) as (_ & Hco & Hcx & _).
  destruct (pair_in_line_next L (Pos.ch pos) o x Hch) as [Hf Hs].
  fold L1 in Hco, Hcx, Hf, Hs.
  pose proof HL as HL'. apply getLine_Some in HL' as [Hl HLt].
  assert (HL1 : Host.getLine (Pos.line (cursor (nextEvent w1))) (nextEvent w1)
                = Some L1).
  { apply (getLine_setLine w _ _ L L1 HL). reflexivity. }
  assert (Hopen' : isOpenBracket [o] = true) by (rewrite <- Ho; exact Hopen).
  assert (HnoEOL1 : noEOL L1).
  { destruct (getCloseBracket_opener _ Hopen)
      as (o' & x' & Ho' & Hx' & _ & Eo & Ex).
    assert (o' = o) by congruence. subst o'.
    assert (x' = x) by (rewrite Ho in Hx'; congruence). subst x'.
    unfold L1, noEOL in *.
    rewrite <- (firstn_skipn (Z.to_nat (Pos.ch pos)) L) in HnoEOL.
    apply Forall_app in HnoEOL as [H1 H2].
    apply Forall_app. split; [exact H1 |].
    inversion Eo; inversion Ex; subst. repeat constructor; tauto. }
  assert (Hind : matchLeadingWhitespace L1 = indentation).
  { unfold L1, indentation, before. cbn [app].
    apply matchLeadingWhitespace_app. apply opener_not_space. exact Hopen'. }
  pose proof (handleEnter_splits event' (nextEvent w1) L1 HL1 HnoEOL1) as H2.
  cbv zeta in H2.
  change (cursor (nextEvent w1))
    with (Pos.mk (Pos.line pos) (Pos.ch pos + 1)) in H2.
  cbn [Pos.line Pos.ch] in H2.
  replace (Pos.ch pos + 1 - 1) with (Pos.ch pos) in H2 by lia.
  rewrite Hco, Hcx, Hind, Hf, Hs in H2. specialize (H2 Hopen' Hc).
  exists [x], w1. eexists.
  split; [rewrite Ho; exact Hx |]. split; [exact Hrun |].
  split.
  { unfold handleKeydown. rewrite Hkey.
    change (eqb (lit "Enter") (lit "Enter")) with true. cbv iota.
    exact H2. }
  cbn [doc ranges selBefore primary selAfter nextEvent w1 app indentUnit].
  split; [| reflexivity].
  unfold setLine.
  assert (Hfl : List.length (firstn (Z.to_nat (Pos.line pos)) (doc w))
                = Z.to_nat (Pos.line pos))
    by (rewrite length_firstn; lia).
  rewrite firstn_app, Hfl, Nat.sub_diag. cbn [firstn]. rewrite app_nil_r.
  rewrite firstn_all2 by lia.
  rewrite skipn_app, Hfl.
  rewrite (skipn_all2 (n := Z.to_nat (Pos.line pos + 1))
             (firstn (Z.to_nat (Pos.line pos)) (doc w)))
    by (rewrite Hfl; lia).
  replace (Z.to_nat (Pos.line pos + 1) - Z.to_nat (Pos.line pos))%nat
    with 1%nat by lia.
  cbn [skipn app]. rewrite Ho. reflexivity.
Qed.

(** ** Commands and the default *)

Lemma handleKeydown_sends (event : Event) (w w' : world) :
  run (handleKeydown event) w = Some w' ->
  (issued w' = issued w /\ defaultPrevented w' = defaultPrevented w)
  \/ exists rest,
       issued w' = issued w ++ PreventDefault :: rest
       /\ rest <> [] /\ Forall (fun c => toEditor c = true) rest
       /\ defaultPrevented w' = true.
Proof.
  unfold run, handleKeydown.
  assert (Hret : forall v, Some w = Some v ->
    (issued v = issued w /\ defaultPrevented v = defaultPrevented w)
    \/ exists rest,
         issued v = issued w ++ PreventDefault :: rest
         /\ rest <> [] /\ Forall (fun c => toEditor c = true) rest
         /\ defaultPrevented v = true).
  { intros v [= <-]. left. split; reflexivity. }
  destruct (eqb (key event) (lit "Enter")).
  - unfold handleEnter. step.
    destruct (Host.getLine (Pos.line (cursor w)) w) as [L|]; cbn;
      [| discriminate].
    destruct (isOpenBracket (charAt L (Pos.ch (cursor w) - 1))
              && isCloseBracket (charAt L (Pos.ch (cursor w)))); cbn;
      [| apply Hret].
    unfold Host.setCursor, Host.replaceRange. cbn. intros [= <-]. cbn.
    rewrite <- !app_assoc. right. eexists.
    split; [reflexivity |]. split; [discriminate |].
    split; [repeat constructor | reflexivity].
  - destruct (eqb (key event) (lit "Backspace")); [| apply Hret].
    unfold handleBackspace. step.
    destruct (Host.somethingSelected w); [apply Hret |].
    destruct (Host.getLine (Pos.line (cursor w)) w) as [L|]; cbn;
      [| discriminate].
    destruct (isOpenBracket (charAt L (Pos.ch (cursor w) - 1))); cbn;
      [| apply Hret].
    destruct (strictEq (charAt L (Pos.ch (cursor w)))
                (getCloseBracket (charAt L (Pos.ch (cursor w) - 1)))).
    + unfold Host.replaceRange. cbn. intros [= <-]. cbn.
      rewrite <- !app_assoc. right. eexists.
      split; [reflexivity |]. split; [discriminate |].
      split; [repeat constructor | reflexivity].
    + intros [= <-]. left. split; reflexivity.
Qed.

(** X11: a handler that returns has prevented the default exactly when it
    has sent a command to the editor, and then [preventDefault] came first
    and once: what follows it are calls of [replaceRange] and [setCursor]
    only, at least one.  No edit and no cursor move without taking the key
    over, and no key taken over without an edit or a cursor move. *)
Theorem default_prevented_iff_command (event : Event) (w w' : world) :
  run (handleKeypress event) w = Some w'
  \/ run (handleKeydown event) w = Some w' ->
  (issued w' = issued w /\ defaultPrevented w' = defaultPrevented w)
  \/ exists rest,
       issued w' = issued w ++ PreventDefault :: rest
       /\ rest <> [] /\ Forall (fun c => toEditor c = true) rest
       /\ defaultPrevented w' = true.
Proof.
  intros [Hrun | Hrun]; [| exact (handleKeydown_sends event w w' Hrun)].
  destruct (handleKeypress_cases event w w' Hrun)
    as [(_ & _ & ->) | (L & HL & _)]; [left; split; reflexivity |].
  destruct (handleKeypress_sends event w L HL)
    as (v & new & Hv & Hi & Hcases & _).
  assert (E : Some v = Some w') by (rewrite <- Hv; exact Hrun).
  injection E as ->.
  destruct Hcases as [[-> U] | (Hp & rest & -> & Hne & Hf)].
  - left. destruct U as (_ & _ & _ & _ & _ & U1 & U2). split; assumption.
  - right. exists rest. repeat split; assumption.
Qed.

(** ** Examples of the further properties *)

(** ")" is no key of the table. *)
Lemma getCloseBracket_defined_on_openers_witness :
  JS.length (lit ")") <= 1
  /\ (getCloseBracket (lit ")") = None <-> isOpenBracket (lit ")") = false).
Proof.
  assert (Hlen : JS.length (lit ")") <= 1) by (vm_compute; discriminate).
  split; [exact Hlen |].
  exact (proj1 (getCloseBracket_defined_on_openers (lit ")") Hlen)).
Defined.

Lemma enter_looks_at_two_characters_witness :
  Host.getLine 0 (editing [lit "{)"] 0 1 4) = Some (lit "{)")
  /\ noEOL (lit "{)")
  /\ run (handleEnter (keydown "Enter")) (editing [lit "{)"] 0 1 4)
     = Some (mkWorld [lit "{"; lit "    "; lit ")"] []
                     (cursorAt (Pos.mk 1 4)) [] 4 true
                     [PreventDefault;
                      ReplaceRange ([LF] ++ lit "    " ++ [LF])
                                   (Pos.mk 0 1) (Pos.mk 0 1);
                      SetCursor (Pos.mk 1 4)]
                     []).
Proof.
  assert (HnoEOL : noEOL (lit "{)")) by (repeat constructor; discriminate).
  split; [reflexivity |]. split; [exact HnoEOL |].
  exact (proj1 (enter_looks_at_two_characters (keydown "Enter")
                  (editing [lit "{)"] 0 1 4) (lit "{)") eq_refl HnoEOL)
           eq_refl).
Defined.

Lemma opener_then_backspace_restores_witness :
  Host.getLine 0 (editing [lit "ab"] 0 1 2) = Some (lit "ab")
  /\ Host.somethingSelected (editing [lit "ab"] 0 1 2) = false
  /\ isOpenBracket (fromCharCode 91) = true
  /\ exists w1 w2,
       run (handleKeypress (keypress 91)) (editing [lit "ab"] 0 1 2) = Some w1
       /\ run (handleKeydown (keydown "Backspace")) (nextEvent w1) = Some w2
       /\ doc w1 = [lit "a[]b"]
       /\ doc w2 = [lit "ab"]
       /\ ranges w2 = [cursorAt (Pos.mk 0 1)].
Proof.
  split; [reflexivity |]. split; [reflexivity |]. split; [reflexivity |].
  destruct (opener_then_backspace_restores (keypress 91)
              (keydown "Backspace") (editing [lit "ab"] 0 1 2) (lit "ab")
              eq_refl ltac:(vm_compute; split; discriminate) eq_refl eq_refl
              (or_introl eq_refl) eq_refl)
    as (w1 & w2 & H1 & H2 & Hdoc & Hr & _).
  exists w1, w2. split; [exact H1 |]. split; [exact H2 |].
  split; [| split; [exact Hdoc | exact Hr]].
  assert (E : Some w1 = Some (mkWorld [lit "a[]b"] []
                                (cursorAt (Pos.mk 0 2)) [] 2 true
                                [PreventDefault;
                                 ReplaceRange (lit "[]") (Pos.mk 0 1)
                                              (Pos.mk 0 1);
                                 SetCursor (Pos.mk 0 2)]
                                [lit "["]))
    by (rewrite <- H1; vm_compute; reflexivity).
  injection E as ->. reflexivity.
Defined.

(** A quote typed twice gives one pair of quotes. *)
Lemma opener_then_closer_leaves_one_pair_witness :
  Host.getLine 0 (editing [lit "ab"] 0 1 2) = Some (lit "ab")
  /\ getCloseBracket (fromCharCode 39) = Some (fromCharCode 39)
  /\ exists w1 w2,
       run (handleKeypress (keypress 39)) (editing [lit "ab"] 0 1 2) = Some w1
       /\ run (handleKeypress (keypress 39)) (nextEvent w1) = Some w2
       /\ doc w2 = [lit "a''b"]
       /\ ranges w2 = [cursorAt (Pos.mk 0 3)].
Proof.
  assert (Hclose : getCloseBracket (fromCharCode 39)
                   = Some (fromCharCode 39)) by reflexivity.
  assert (Hnext : isCloseBracket (fromCharCode 39) = false
                  \/ charAt (lit "ab") 1 <> fromCharCode 39)
    by (right; vm_compute; discriminate).
  assert (Hch : 0 <= 1 <= JS.length (lit "ab"))
    by (vm_compute; split; discriminate).
  split; [reflexivity |]. split; [exact Hclose |].
  destruct (opener_then_closer_leaves_one_pair (keypress 39) (keypress 39)
              (editing [lit "ab"] 0 1 2) (lit "ab")
              eq_refl Hch eq_refl eq_refl Hnext Hclose)
    as (w1 & w2 & H1 & H2 & Hdoc & Hr & _).
  exists w1, w2. split; [exact H1 |]. split; [exact H2 |].
  split; [exact Hdoc | exact Hr].
Defined.

Lemma pure_opener_twice_nests_witness :
  Host.getLine 0 (editing [lit "ab"] 0 1 2) = Some (lit "ab")
  /\ isCloseBracket (fromCharCode 40) = false
  /\ exists w1 w2,
       run (handleKeypress (keypress 40)) (editing [lit "ab"] 0 1 2) = Some w1
       /\ run (handleKeypress (keypress 40)) (nextEvent w1) = Some w2
       /\ doc w2 = [lit "a(())b"]
       /\ ranges w2 = [cursorAt (Pos.mk 0 3)].
Proof.
  split; [reflexivity |]. split; [reflexivity |].
  destruct (pure_opener_twice_nests (keypress 40)
              (editing [lit "ab"] 0 1 2) (lit "ab")
              eq_refl ltac:(vm_compute; split; discriminate) eq_refl eq_refl
              eq_refl)
    as (close & w1 & w2 & Hc & H1 & H2 & Hdoc & Hr).
  injection Hc as <-.
  exists w1, w2. split; [exact H1 |]. split; [exact H2 |].
  split; [exact Hdoc | exact Hr].
Defined.

(** "ab" selected from its end to its start in "ab cd". *)
Lemma backward_selection_is_replaced_witness :
  isOpenBracket (fromCharCode 40) = true
  /\ Host.getRange (Pos.mk 0 2) (Pos.mk 0 0)
       (mkWorld [lit "ab cd"] [] (span 0 2 0 0) [] 2 false [] [])
     = []
  /\ run (handleKeypress (keypress 40))
         (mkWorld [lit "ab cd"] [] (span 0 2 0 0) [] 2 false [] [])
     = Some (mkWorld [lit "() cd"] [] (cursorAt (Pos.mk 0 2)) [] 2 true
                     [PreventDefault;
                      ReplaceRange (lit "()") (Pos.mk 0 2) (Pos.mk 0 0)]
                     [lit "("]).
Proof.
  split; [reflexivity |].
  destruct (backward_selection_is_replaced (keypress 40)
              (mkWorld [lit "ab cd"] [] (span 0 2 0 0) [] 2 false [] [])
              [] [] [] (lit " cd") (lit "ab") []
              eq_refl eq_refl eq_refl eq_refl
              ltac:(discriminate) eq_refl (or_introl eq_refl))
    as (close & Hc & Hrange & Hrun).
  injection Hc as <-. split; [exact Hrange | exact Hrun].
Defined.

(** "ab" and "cd" selected, each on its line. *)
Lemma wrap_selections_on_own_lines_witness :
  Host.somethingSelected
    (mkWorld [lit "ab"; lit "cd"] [] (span 0 0 0 2) [span 1 0 1 2] 2
             false [] [])
  = true
  /\ exists w',
       run (handleKeypress (keypress 40))
           (mkWorld [lit "ab"; lit "cd"] [] (span 0 0 0 2) [span 1 0 1 2] 2
                    false [] [])
       = Some w'
       /\ Host.lineText (doc w') 0 = lit "(ab)"
       /\ Host.lineText (doc w') 1 = lit "(cd)"
       /\ List.length (doc w') = 2%nat.
Proof.
  split; [reflexivity |].
  assert (Hvalid :
    Forall (inOneLine [lit "ab"; lit "cd"]) [span 0 0 0 2; span 1 0 1 2]).
  { repeat constructor; vm_compute; discriminate. }
  assert (HnoEOL : Forall noEOL [lit "ab"; lit "cd"])
    by (repeat constructor; discriminate).
  assert (Hnodup : NoDup (map lineOf [span 0 0 0 2; span 1 0 1 2])).
  { repeat constructor; cbn; intuition discriminate. }
  destruct (wrap_selections_on_own_lines (keypress 40)
              (mkWorld [lit "ab"; lit "cd"] [] (span 0 0 0 2)
                       [span 1 0 1 2] 2 false [] [])
              Hvalid HnoEOL Hnodup eq_refl eq_refl (or_introl eq_refl))
    as (close & w' & Hc & Hrun & Hlen & Hin & _).
  injection Hc as <-.
  exists w'. split; [exact Hrun |].
  split; [exact (Hin (span 0 0 0 2) (or_introl eq_refl)) |].
  split; [exact (Hin (span 1 0 1 2) (or_intror (or_introl eq_refl))) |].
  exact Hlen.
Defined.

Lemma default_prevented_iff_command_witness :
  run (handleKeydown (keydown "Backspace")) (editing [lit "a()b"] 0 2 2)
  = Some (mkWorld [lit "ab"] [] (cursorAt (Pos.mk 0 1)) [] 2 true
                  [PreventDefault;
                   ReplaceRange [] (Pos.mk 0 1) (Pos.mk 0 3)]
                  [lit "("])
  /\ exists rest,
       [PreventDefault; ReplaceRange [] (Pos.mk 0 1) (Pos.mk 0 3)]
       = [] ++ PreventDefault :: rest
       /\ rest <> [].
Proof.
  assert (Hrun :
    run (handleKeydown (keydown "Backspace")) (editing [lit "a()b"] 0 2 2)
    = Some (mkWorld [lit "ab"] [] (cursorAt (Pos.mk 0 1)) [] 2 true
                    [PreventDefault;
                     ReplaceRange [] (Pos.mk 0 1) (Pos.mk 0 3)]
                    [lit "("])) by (vm_compute; reflexivity).
  split; [exact Hrun |].
  destruct (default_prevented_iff_command (keydown "Backspace") _ _
              (or_intror Hrun)) as [[H _] | (rest & H & Hne & _)].
  - discriminate H.
  - exists rest. split; [exact H | exact Hne].
Defined.

(** "(" and then Enter at the end of "  foo". *)
Lemma opener_then_enter_opens_block_witness :
  Host.getLine 0 (editing [lit "  foo"] 0 5 2) = Some (lit "  foo")
  /\ noEOL (lit "  foo")
  /\ exists w1 w2,
       run (handleKeypress (keypress 40)) (editing [lit "  foo"] 0 5 2)
       = Some w1
       /\ run (handleKeydown (keydown "Enter")) (nextEvent w1) = Some w2
       /\ doc w2 = [lit "  foo("; lit "    "; lit "  )"]
       /\ ranges w2 = [cursorAt (Pos.mk 1 4)].
Proof.
  assert (HnoEOL : noEOL (lit "  foo")) by (repeat constructor; discriminate).
  split; [reflexivity |]. split; [exact HnoEOL |].
  destruct (opener_then_enter_opens_block (keypress 40) (keydown "Enter")
              (editing [lit "  foo"] 0 5 2) (lit "  foo")
              eq_refl ltac:(vm_compute; split; discriminate) HnoEOL eq_refl
              eq_refl (or_introl eq_refl) eq_refl)
    as (close & w1 & w2 & Hc & H1 & H2 & Hdoc & Hr).
  injection Hc as <-.
  exists w1, w2. split; [exact H1 |]. split; [exact H2 |].
  split; [exact Hdoc | exact Hr].
Defined.
